(** * felixarjuna/me: the article page, the content collections, the clock
    widget and the JSON-LD injector, embedded and verified.

    The development follows the source files:
    - [JS]          the fragments of the JavaScript runtime the code calls
                    (completions, promises, [Array.prototype.sort] and
                    [reduce], ordinary objects and their key order, dates);
    - [Collections] the content-collections configuration ([pages] and [posts]
                    with their [transform]s);
    - [Article]     app/article/page.tsx ([postsByYear] and [Posts]);
    - [Clock]       components/local-time.tsx ([LocalTime]);
    - [Schema]      components/json-ld.tsx ([person] and [JsonLd]).

    Definitions come first; the lemmas and the theorems follow. *)

From stdpp Require Import base decidable option list sorting gmap strings.
From Stdlib Require Import ZArith Ascii String.

Local Open Scope string_scope.
Local Open Scope list_scope.
Local Open Scope Z_scope.

(* ===================================================================== *)
(** * The JavaScript fragments the code relies on *)
(* ===================================================================== *)

Module JS.

(** Exceptions.  Only the kinds that the modelled code can meet. *)
Inductive Error : Type :=
| TypeError (message : string)
| HostError (message : string).

(** A completion record: a statement either finishes normally with a value
    or throws. *)
Inductive Completion (A : Type) : Type :=
| Normal (value : A)
| Throw (error : Error).
Arguments Normal {A} value.
Arguments Throw {A} error.

Definition bind {A B} (c : Completion A) (k : A → Completion B) : Completion B :=
  match c with
  | Normal a => k a
  | Throw e => Throw e
  end.

(** A settled promise, as an [await] sees it. *)
Inductive Promise (A : Type) : Type :=
| Resolved (value : A)
| Rejected (reason : Error).
Arguments Resolved {A} value.
Arguments Rejected {A} reason.

(** [const x = await p; k x] inside an [async] function: a rejection of
    [p] is rethrown at the [await] and, with no [try] around it, rejects the
    promise of the enclosing function. *)
Definition await {A B} (p : Promise A) (k : A → Promise B) : Promise B :=
  match p with
  | Resolved a => k a
  | Rejected e => Rejected e
  end.

(** ToBoolean on a value that is either [undefined] or an object. *)
Definition truthy {A} (v : option A) : bool :=
  match v with
  | Some _ => true
  | None => false
  end.

(** ** Arrays *)
Module Array.

(** [Array.prototype.sort(comparefn)].  The algorithm is left to the
    implementation, but the sort is stable and, for a consistent
    comparator, its result is determined: the elements in the order of
    [comparefn], ties in their original order.  That result is the one
    of a stable insertion sort: [x], which precedes every element of
    [l] in the array, moves behind [y] only when [comparefn x y > 0]. *)
Fixpoint insert {A} (comparefn : A → A → Z) (x : A) (l : list A) : list A :=
  match l with
  | [] => [x]
  | y :: l' =>
      if decide (comparefn x y ≤ 0) then x :: y :: l'
      else y :: insert comparefn x l'
  end.

Definition sort {A} (comparefn : A → A → Z) (l : list A) : list A :=
  foldr (insert comparefn) [] l.

(** [Array.prototype.reduce(callbackfn, initialValue)], with a callback
    that may throw: the first exception ends the traversal. *)
Fixpoint reduce {A B} (callbackfn : B → A → Completion B)
    (l : list A) (initialValue : B) : Completion B :=
  match l with
  | [] => Normal initialValue
  | x :: l' => bind (callbackfn initialValue x) (reduce callbackfn l')
  end.

(** [a] may stay in front of [b]: the comparator does not ask for a swap. *)
Definition inOrder {A} (comparefn : A → A → Z) (a b : A) : Prop :=
  comparefn a b ≤ 0.

(** [arr.push(x)]. *)
Definition push {A} (arr : list A) (x : A) : list A := arr ++ [x].

End Array.

(** ** Ordinary objects whose property keys come from integral numbers

    [Record<number, V>]: a property key is the string [ToString(n)] of
    the number used to index, and for integers [n] that string is the
    decimal numeral of [n], from which [Number(key)] gives [n] back.  The
    model therefore names a key by its integer.  Own properties are kept
    in creation order, which [Object.entries] needs. *)
Module Object.

Definition t (V : Type) : Type := list (Z * V).

(** [{}] *)
Definition empty {V} : t V := [].

(** [o[k]]: the value, or [undefined]. *)
Fixpoint get {V} (o : t V) (k : Z) : option V :=
  match o with
  | [] => None
  | (k', v) :: o' => if decide (k = k') then Some v else get o' k
  end.

(** [o[k] = v]: an existing property keeps its place, a new one is
    created last. *)
Fixpoint set {V} (o : t V) (k : Z) (v : V) : t V :=
  match o with
  | [] => [(k, v)]
  | (k', v') :: o' =>
      if decide (k = k') then (k, v) :: o' else (k', v') :: set o' k v
  end.

(** An array index is a key that is the numeral of an integer in
    0 .. 2^32 - 2. *)
Definition isArrayIndex (k : Z) : bool :=
  bool_decide (0 ≤ k ∧ k < 2 ^ 32 - 1).

(** OrdinaryOwnPropertyKeys: array indices in ascending numeric order,
    then the other string keys in creation order.  [Object.entries]
    lists the (enumerable) own properties in that order. *)
Definition entries {V} (o : t V) : list (Z * V) :=
  Array.sort (λ a b, a.1 - b.1) (List.filter (λ e, isArrayIndex e.1) o)
  ++ List.filter (λ e, negb (isArrayIndex e.1)) o.

End Object.

(** ** Dates

    A (valid) Date object holds a time value: milliseconds since the
    epoch.  The collections' schema ([z.coerce.date()]) rejects documents
    whose date is invalid, so every date that reaches the code is valid. *)
Module Date.

Record t : Type := mk { getTime : Z }.

(** [new Date(d)] for a Date [d]: a fresh object with [d]'s time value. *)
Definition new (d : t) : t := mk (getTime d).

(** The host's local time zone adjustment, in milliseconds, at a given
    time value. *)
Class TimeZone : Type := { LocalTZA : Z → Z }.

Definition msPerDay : Z := 86400000.
Definition Day (t : Z) : Z := t `div` msPerDay.

(** ECMA-262, Year Number. *)
Definition DayFromYear (y : Z) : Z :=
  365 * (y - 1970) + (y - 1969) `div` 4 - (y - 1901) `div` 100
  + (y - 1601) `div` 400.
Definition TimeFromYear (y : Z) : Z := msPerDay * DayFromYear y.

(** [YearFromTime t]: the largest [y] with [TimeFromYear y ≤ t].  A
    400-year cycle has 146097 days, which places the year within one of
    the estimate. *)
Definition YearFromTime (t : Z) : Z :=
  let d := Day t in
  let y := 1970 + (400 * d) `div` 146097 in
  if decide (d < DayFromYear y) then y - 1
  else if decide (DayFromYear (y + 1) ≤ d) then y + 1
  else y.

Definition LocalTime `{TimeZone} (t : Z) : Z := t + LocalTZA t.

(** [d.getFullYear()] *)
Definition getFullYear `{TimeZone} (d : t) : Z :=
  YearFromTime (LocalTime (getTime d)).

(** The zone of a host that runs in UTC. *)
Definition UTC : TimeZone := {| LocalTZA := λ _, 0 |}.

End Date.

(** ** Strings

    Strings are kept as their UTF-8 bytes.  The characters the code
    looks for are ASCII, and an ASCII byte never occurs inside the
    encoding of another character, so working on bytes agrees with
    working on UTF-16 code units. *)
Module Str.

Definition backslash : ascii := "092"%char.
Definition slash : ascii := "047"%char.

(** [s.replace(/c/g, r)] for a pattern that is the single character
    [c]: every occurrence of [c] becomes [r]. *)
Fixpoint replace (c r : ascii) (s : string) : string :=
  match s with
  | EmptyString => EmptyString
  | String a s' => String (if decide (a = c) then r else a) (replace c r s')
  end.

(** Do all the characters of the string satisfy [P]? *)
Fixpoint all (P : ascii → bool) (s : string) : bool :=
  match s with
  | EmptyString => true
  | String a s' => P a && all P s'
  end.

(** Does the character occur in the string? *)
Fixpoint contains (c : ascii) (s : string) : bool :=
  match s with
  | EmptyString => false
  | String a s' => bool_decide (a = c) || contains c s'
  end.

End Str.

(** ** React elements: what a component returns *)
Module React.

Inductive Node : Type :=
| Text (data : string)
| Element (type : string) (props : list (string * string)) (children : list Node).

(** The elements of a given type at the root of what a component returns
    and below it. *)
Fixpoint count (type : string) (n : Node) : nat :=
  match n with
  | Text _ => 0%nat
  | Element type' _ children =>
      ((if decide (type' = type) then 1 else 0)
       + foldr (λ c acc, count type c + acc) 0 children)%nat
  end.

End React.

End JS.

(* ===================================================================== *)
(** * content-collections.ts: the [pages] and [posts] collections *)
(* ===================================================================== *)

Module Collections.
Import JS.

Record Themes : Type := { light : string; dark : string }.
Record RehypeCodeOptions : Type := { themes : Themes }.

Definition rehypeCodeOptions : RehypeCodeOptions :=
  {| themes := {| light := "github-light"; dark := "github-dark-default" |} |}.

(** The plugins imported from fumadocs-core/mdx-plugins. *)
Inductive Plugin : Type := rehypeCode | remarkGfm | remarkHeading.

(** An entry of a plugin list: a plugin, or a [[plugin, options]] pair. *)
Inductive Pluggable : Type :=
| Plain (plugin : Plugin)
| WithOptions (plugin : Plugin) (options : RehypeCodeOptions).

Record Options : Type :=
  { remarkPlugins : list Pluggable; rehypePlugins : list Pluggable }.

(** What the library puts in [_meta]. *)
Record Meta : Type :=
  { filePath : string; fileName : string; directory : string;
    extension : string; path : string }.

(** The part of a document that [compileMDX] is typed to read. *)
Record Document : Type := { _meta : Meta; content : string }.

(** The result of [readingTime]; its fractional [minutes] and [time]
    fields are not read by the code and are left out. *)
Record ReadTimeResults : Type := { text : string; words : Z }.

(** The two library functions the transforms call.  [compileMDX] is
    asynchronous: the promise it returns resolves with the compiled body
    or rejects. *)
Class Library : Type :=
  { Context_ : Type;
    compileMDX : Context_ → Document → Options → Promise string;
    readingTime : string → ReadTimeResults }.

(** [path.replace(/\\/g, '/')] *)
Definition normalize (path : string) : string := Str.replace Str.backslash Str.slash path.

Module pages.

(** A page as the schema delivers it. *)
Record input : Type :=
  { title : string; description : string; content : string; _meta : Meta }.

Record output : Type :=
  { title' : string; description' : string; content' : string;
    body : string; _meta' : Meta }.

Definition document (page : input) : Document :=
  {| Collections._meta := _meta page; Collections.content := content page |}.

Definition transform `{Library} (page : input) (context : Context_)
    : Promise output :=
  await (compileMDX context (document page)
           {| remarkPlugins := [Plain remarkGfm];
              rehypePlugins :=
                [WithOptions rehypeCode rehypeCodeOptions;
                 Plain remarkHeading] |})
    (λ body,
       Resolved
         {| title' := title page;
            description' := description page;
            content' := content page;
            body := body;
            _meta' :=
              {| filePath := filePath (_meta page);
                 fileName := fileName (_meta page);
                 directory := directory (_meta page);
                 extension := extension (_meta page);
                 path := normalize (path (_meta page)) |} |}).

End pages.

Module posts.

(** A post as the schema delivers it ([image] is optional). *)
Record input : Type :=
  { title : string; description : string; date : Date.t;
    image : option string; content : string; _meta : Meta }.

Record output : Type :=
  { title' : string; description' : string; date' : Date.t;
    image' : option string; content' : string; body : string;
    slug : string; readingTime' : string; _meta' : Meta }.

Definition document (page : input) : Document :=
  {| Collections._meta := _meta page; Collections.content := content page |}.

Definition transform `{Library} (page : input) (context : Context_)
    : Promise output :=
  await (compileMDX context (document page)
           {| remarkPlugins := [Plain remarkGfm];
              rehypePlugins :=
                [WithOptions rehypeCode rehypeCodeOptions;
                 Plain remarkHeading] |})
    (λ body,
       let normalizedPath := normalize (path (_meta page)) in
       Resolved
         {| title' := title page;
            description' := description page;
            date' := Date.new (date page);
            image' := image page;
            content' := content page;
            body := body;
            slug := normalizedPath;
            readingTime' := text (readingTime (content page));
            _meta' :=
              {| filePath := filePath (_meta page);
                 fileName := fileName (_meta page);
                 directory := directory (_meta page);
                 extension := extension (_meta page);
                 path := normalizedPath |} |}).

End posts.

End Collections.

(* ===================================================================== *)
(** * app/article/page.tsx: [postsByYear] and the [Posts] component *)
(* ===================================================================== *)

Module Article.
Import JS.

(** An article: a document of the posts collection after its transform. *)
Abbreviation Post := Collections.posts.output.
Abbreviation date := Collections.posts.date'.

Section page.
Context `{!Date.TimeZone}.

(** [(a, b) => b.date.getTime() - a.date.getTime()].  Time values are
    integers of magnitude at most 8.64e15, so the double that the
    subtraction yields has the sign of the exact difference. *)
Definition newestFirst (a b : Post) : Z :=
  Date.getTime (date b) - Date.getTime (date a).

(** The callback of the [reduce].  [acc[year].push(post)] reads a
    property of [acc[year]] and throws a TypeError when that is
    [undefined]; the array that [acc[year]] holds is updated in place. *)
Definition reducer (acc : Object.t (list Post)) (post : Post)
    : Completion (Object.t (list Post)) :=
  let year := Date.getFullYear (date post) in
  let acc :=
    if negb (truthy (Object.get acc year)) then Object.set acc year []
    else acc in
  match Object.get acc year with
  | None =>
      Throw (TypeError "Cannot read properties of undefined (reading 'push')")
  | Some bucket => Normal (Object.set acc year (Array.push bucket post))
  end.

Definition postsByYear (allArticles : list Post)
    : Completion (Object.t (list Post)) :=
  Array.reduce reducer (Array.sort newestFirst allArticles) Object.empty.

(** The posts of a list whose date falls in year [y], in the list's order. *)
Definition ofYear (y : Z) (posts : list Post) : list Post :=
  filter (λ post, Date.getFullYear (date post) = y) posts.

(** [o] groups the posts [seen] so far: no year keys two buckets, the
    bucket of a year holds the posts of that year in the order they were
    seen (and a year without posts has no bucket), and the buckets together
    hold what was seen. *)
Definition groups (seen : list Post) (o : Object.t (list Post)) : Prop :=
  NoDup o.*1
  ∧ (∀ y, Object.get o y
          = match ofYear y seen with [] => None | bucket => Some bucket end)
  ∧ List.concat o.*2 ≡ₚ seen.

(** Newest first: [a] is not older than [b]. *)
Definition notOlder (a b : Post) : Prop :=
  Date.getTime (date b) ≤ Date.getTime (date a).

End page.

(** One [<Section key={year} delay={(index + 1) * 0.2}>]: the heading
    shows [year], the list has one [<li key={post._meta.path}>] per post.
    [delay] is kept as the factor [index + 1] of 0.2. *)
Record YearSection : Type :=
  { key : Z; delay : nat; year : Z; items : list (string * Post) }.

(** [([a], [b]) => Number(b) - Number(a)] *)
Definition byYearDesc {V} (a b : Z * V) : Z := b.1 - a.1.

(** The year sections that [Posts] renders below the title section. *)
Definition Posts (postsByYear : Object.t (list Post)) : list YearSection :=
  imap
    (λ index '(year, posts),
       {| key := year;
          delay := index + 1;
          year := year;
          items :=
            (λ post, (Collections.path (Collections.posts._meta' post), post))
              <$> posts |})
    (Array.sort byYearDesc (Object.entries postsByYear)).

(** The years of the rendered sections, top to bottom. *)
Definition renderedYears (sections : list YearSection) : list Z :=
  year <$> sections.

(** The posts that the page lists, top to bottom: the [<li>]s of all the
    sections. *)
Definition listed (sections : list YearSection) : list Post :=
  List.concat ((λ section, (items section).*2) <$> sections).

End Article.


(* ===================================================================== *)
(** * components/local-time.tsx: the clock widget *)
(* ===================================================================== *)

Module Clock.
Import JS.

(** The options object given to [Intl.DateTimeFormat]. *)
Inductive FieldStyle : Type := numeric | two_digit.

Record DateTimeFormatOptions : Type :=
  { hour : option FieldStyle; minute : option FieldStyle;
    second : option FieldStyle; timeZone : option string }.

(** [new Intl.DateTimeFormat(locales, options).format(date)], which the host
    provides. *)
Class Intl : Type :=
  { DateTimeFormat : string → DateTimeFormatOptions → Date.t → string }.

(** The callbacks this program hands to [setInterval]:
    [() => { setTime(new Date()); }]. *)
Inductive Handler : Type := refresh.

Record Timer : Type := { handler : Handler; timeout : Z }.

(** The host's table of active intervals and the next id it gives out. *)
Record Timers : Type := { active : gmap nat Timer; nextId : nat }.

Definition setInterval (h : Handler) (ms : Z) (t : Timers) : nat * Timers :=
  (nextId t,
   {| active := <[nextId t := {| handler := h; timeout := ms |}]> (active t);
      nextId := S (nextId t) |}).

Definition clearInterval (id : nat) (t : Timers) : Timers :=
  {| active := delete id (active t); nextId := nextId t |}.

(** A mounted [LocalTime]: its state [time], and the [interval] that the
    cleanup function returned by the effect has captured. *)
Record Instance : Type := { time : Date.t; interval : nat }.

(** The state setter of [useState]. *)
Definition setTime (t : Date.t) (i : Instance) : Instance :=
  {| time := t; interval := interval i |}.

(** Running a handler when [new Date()] reads [now]. *)
Definition call (h : Handler) (now : Date.t) : Instance → Instance :=
  match h with
  | refresh => setTime now
  end.

Record World : Type := { timers : Timers; mounted : option Instance }.

Definition initial : World :=
  {| timers := {| active := ∅; nextId := 0 |}; mounted := None |}.

(** What happens to the component.  [now] is what [new Date()] reads at
    that moment. *)
Inductive Event : Type :=
| mount (now : Date.t)
| fire (id : nat) (now : Date.t)
| unmount.

(** - [mount]: [useState(new Date())] initialises [time]; the effect, whose
      dependency list is empty, runs once and starts the interval;
    - [fire id]: the host runs the handler of the active interval [id], and
      [setTime(new Date())] updates the state of the mounted component;
    - [unmount]: the effect's cleanup runs [clearInterval(interval)]. *)
Definition step (w : World) (e : Event) : World :=
  match e with
  | mount now =>
      match mounted w with
      | Some _ => w
      | None =>
          let '(interval, timers') := setInterval refresh 1000 (timers w) in
          {| timers := timers';
             mounted := Some {| time := now; interval := interval |} |}
      end
  | fire id now =>
      match active (timers w) !! id with
      | Some timer =>
          {| timers := timers w;
             mounted := call (handler timer) now <$> mounted w |}
      | None => w
      end
  | unmount =>
      match mounted w with
      | Some i =>
          {| timers := clearInterval (interval i) (timers w); mounted := None |}
      | None => w
      end
  end.

Definition run (events : list Event) : World := foldl step initial events.

(** While the component is mounted the host holds its interval and nothing
    else, and it holds nothing while the component is not mounted. *)
Definition consistent (w : World) : Prop :=
  match mounted w with
  | Some i =>
      active (timers w) = {[ interval i := {| handler := refresh; timeout := 1000 |} ]}
  | None => active (timers w) = ∅
  end.

(** The element that [LocalTime] returns for the current state. *)
Definition LocalTime `{Intl} (i : Instance) : React.Node :=
  let render :=
    DateTimeFormat "de-DE"
      {| hour := Some two_digit; minute := Some two_digit;
         second := Some two_digit; timeZone := Some "Europe/Berlin" |}
      (time i) in
  React.Element "p"
    [("className", "hidden text-foreground-lighter tabular-nums sm:block")]
    [React.Text render].

(** What is on screen: nothing when the component is not mounted. *)
Definition displayed `{Intl} (w : World) : option React.Node :=
  LocalTime <$> mounted w.

End Clock.

(* ===================================================================== *)
(** * components/json-ld.tsx: the JSON-LD injector *)
(* ===================================================================== *)

Module Schema.
Import JS.

(** ** JSON values and [JSON.stringify] (strings, arrays and objects: the
    kinds of value [person] is made of) *)
Inductive JSON : Type :=
| JString (s : string)
| JArray (elements : list JSON)
| JObject (properties : list (string * JSON)).

Definition quotation_mark : ascii := "034"%char.
Definition reverse_solidus : ascii := Str.backslash.

Definition hexDigit (n : N) : ascii :=
  ascii_of_N (if decide (n < 10)%N then 48 + n else 87 + n).

(** QuoteJSONString, one character: the two-character escapes, a
    [\u00xx] escape for the other control characters, the character itself
    otherwise. *)
Definition escape (a : ascii) : string :=
  let c := N_of_ascii a in
  let esc (x : ascii) := String reverse_solidus (String x EmptyString) in
  if decide (c = 8)%N then esc "b"%char
  else if decide (c = 9)%N then esc "t"%char
  else if decide (c = 10)%N then esc "n"%char
  else if decide (c = 12)%N then esc "f"%char
  else if decide (c = 13)%N then esc "r"%char
  else if decide (a = quotation_mark) then esc quotation_mark
  else if decide (a = reverse_solidus) then esc reverse_solidus
  else if decide (c < 32)%N then
    String reverse_solidus
      (String "u"%char (String "0"%char (String "0"%char
         (String (hexDigit (c / 16)) (String (hexDigit (c mod 16)) EmptyString)))))
  else String a EmptyString.

Fixpoint escapeAll (s : string) : string :=
  match s with
  | EmptyString => EmptyString
  | String a s' => escape a +:+ escapeAll s'
  end.

Definition quote (s : string) : string :=
  String quotation_mark (escapeAll s +:+ String quotation_mark EmptyString).

Fixpoint stringify (v : JSON) : string :=
  match v with
  | JString s => quote s
  | JArray elements =>
      "[" +:+ String.concat "," (List.map stringify elements) +:+ "]"
  | JObject properties =>
      "{"
      +:+ String.concat ","
            (List.map (λ p, quote (fst p) +:+ ":" +:+ stringify (snd p)) properties)
      +:+ "}"
  end.

(** A control character: a code unit below U+0020. *)
Definition isControl (a : ascii) : bool := bool_decide (N_of_ascii a < 32)%N.

(** [o[k]] on a JSON value. *)
Definition property (k : string) (v : JSON) : option JSON :=
  match v with
  | JObject properties => snd <$> List.find (λ p, bool_decide (fst p = k)) properties
  | _ => None
  end.

(** The scheme of a URL string: what stands before its first colon. *)
Fixpoint scheme (url : string) : string :=
  match url with
  | EmptyString => EmptyString
  | String a url' => if decide (a = ":"%char) then EmptyString else String a (scheme url')
  end.

(** An entry of [social] (lib/social): only [href] is read here. *)
Record Link : Type := { href : string }.

(** What the module reads from outside: the process environment, the
    validated [env], the [social] links in property order, and the URL
    constructor ([new URL(url, base).toString()], which throws a
    TypeError when the base is not a valid URL). *)
Class Environment : Type :=
  { NODE_ENV : option string;
    VERCEL_PROJECT_PRODUCTION_URL : string;
    social : list (string * Link);
    URL : string → string → Completion string }.

Section module.
Context `{Environment}.

Definition protocol : string :=
  if decide (NODE_ENV = Some "production") then "https" else "http".

Definition baseUrl : string :=
  protocol +:+ "://" +:+ VERCEL_PROJECT_PRODUCTION_URL.

(** [Object.values(social).map(({ href }) => href)] *)
Definition sameAs : list string := (λ e, href (snd e)) <$> social.

Definition person : Completion JSON :=
  bind (URL "/profile.png" baseUrl)
    (λ image,
       Normal
         (JObject
            [("@context", JString "https://schema.org");
             ("@type", JString "Person");
             ("name", JString "Felix Arjuna");
             ("description", JString "Cloud DevOps Engineer");
             ("gender", JString "male");
             ("nationality", JString "Indonesian");
             ("url", JString baseUrl);
             ("image", JString image);
             ("sameAs", JArray (JString <$> sameAs));
             ("alumniOf", JString "Aachen University of Applied Sciences")])).

(** The component, for the [person] the module has built. *)
Definition JsonLd (person : JSON) : React.Node :=
  React.Element "script" [("type", "application/ld+json")]
    [React.Text (stringify person)].

(** Loading the module and rendering the component. *)
Definition rendered : Completion React.Node :=
  bind person (λ p, Normal (JsonLd p)).

End module.

End Schema.

(* ===================================================================== *)
(** * Sample data, for running the definitions *)
(* ===================================================================== *)

Module Sample.
Import JS Collections.

(** The braces of a document that are still open at its end: an opening
    brace starts an expression, a closing brace ends the innermost one. *)
Fixpoint openBraces (depth : nat) (s : string) : nat :=
  match s with
  | EmptyString => depth
  | String a s' =>
      if decide (a = "{"%char) then openBraces (S depth) s'
      else if decide (a = "}"%char) then openBraces (pred depth) s'
      else openBraces depth s'
  end.

(** A library whose MDX compiler rejects a document in which an expression
    is opened and never closed, as MDX does, and otherwise resolves (a
    lone [<] followed by a space is text), and whose reading time is always
    one minute. *)
Definition library : Library :=
  {| Context_ := unit;
     compileMDX := λ _ doc _,
       match openBraces 0 (content doc) with
       | O => Resolved ("compiled: " +:+ content doc)
       | S _ =>
           Rejected
             (HostError
                "Unexpected end of file in expression, expected a corresponding closing brace for `{`")
       end;
     readingTime := λ _, {| text := "1 min read"; words := 200 |} |}.

Definition meta (path : string) : Meta :=
  {| filePath := path +:+ ".mdx"; fileName := "post.mdx"; directory := "blog";
     extension := "mdx"; path := path |}.

(** A post written on a machine whose path separator is the backslash. *)
Definition hello : posts.input :=
  {| posts.title := "Hello"; posts.description := "A first post";
     posts.date := Date.mk 1751846400000; posts.image := None;
     posts.content := "# Hello"; posts._meta := meta "blog\hello" |}.

(** The same post, written where the separator is the slash. *)
Definition hello_posix : posts.input :=
  {| posts.title := "Hello"; posts.description := "A first post";
     posts.date := Date.mk 1751846400000; posts.image := None;
     posts.content := "# Hello"; posts._meta := meta "blog/hello" |}.


(** A post whose MDX does not compile: its brace opens an expression that
    does not end. *)
Definition broken : posts.input :=
  {| posts.title := "Broken"; posts.description := "An open brace";
     posts.date := Date.mk 1751846400000; posts.image := None;
     posts.content := "a { b"; posts._meta := meta "blog\broken" |}.

(** A post with a comparison in its text, which compiles. *)
Definition comparison : posts.input :=
  {| posts.title := "Comparison"; posts.description := "A lone less-than sign";
     posts.date := Date.mk 1751846400000; posts.image := None;
     posts.content := "a < b"; posts._meta := meta "blog\comparison" |}.

Definition about : pages.input :=
  {| pages.title := "About"; pages.description := "About me";
     pages.content := "# About"; pages._meta := meta "pages\about" |}.

(** Articles, by path and time value (midnight UTC of the day in the front
    matter). *)
Definition article (path : string) (time : Z) : posts.output :=
  {| posts.title' := path; posts.description' := ""; posts.date' := Date.mk time;
     posts.image' := None; posts.content' := ""; posts.body := "";
     posts.slug := path; posts.readingTime' := "1 min read";
     posts._meta' := meta path |}.

Definition rag : posts.output :=
  article "article/rag-architectures-guide" 1751673600000.
Definition opentelemetry : posts.output :=
  article "article/opentelemetry-architecture-dashboard-compatibility" 1751932800000.
Definition prometheus : posts.output :=
  article "article/prometheus-elastic-aspnetcore-analysis" 1751328000000.
(** One from the year before, dated 2024-12-31. *)
Definition older : posts.output := article "article/older" 1735603200000.

Definition allArticles : list posts.output :=
  [prometheus; older; opentelemetry; rag].

(** A host whose formatter tells the epoch apart from later times. *)
Definition intl : Clock.Intl :=
  {| Clock.DateTimeFormat := λ _ _ d,
       if decide (Date.getTime d = 0) then "01:00:00" else "later" |}.

Definition environment (node_env : option string) : Schema.Environment :=
  {| Schema.NODE_ENV := node_env;
     Schema.VERCEL_PROJECT_PRODUCTION_URL := "felixarjuna.dev";
     Schema.social :=
       [("github", {| Schema.href := "https://github.com/felixarjuna" |});
        ("linkedin", {| Schema.href := "https://linkedin.com/in/felixarjuna" |})];
     Schema.URL := λ url base, Normal (base +:+ url) |}.

End Sample.

(* ===================================================================== *)
(** * Facts about the JavaScript fragments *)
(* ===================================================================== *)

Lemma YearFromTime_spec t :
  JS.Date.TimeFromYear (JS.Date.YearFromTime t) ≤ t
  ∧ t < JS.Date.TimeFromYear (JS.Date.YearFromTime t + 1).
Proof.
  unfold JS.Date.YearFromTime, JS.Date.TimeFromYear, JS.Date.DayFromYear,
    JS.Date.Day, JS.Date.msPerDay.
  repeat case_decide; Z.div_mod_to_equations; lia.
Qed.

Lemma DayFromYear_mono y y' :
  y ≤ y' → JS.Date.DayFromYear y ≤ JS.Date.DayFromYear y'.
Proof. unfold JS.Date.DayFromYear. intros. Z.div_mod_to_equations. lia. Qed.

Lemma YearFromTime_largest t y :
  JS.Date.TimeFromYear y ≤ t → y ≤ JS.Date.YearFromTime t.
Proof.
  intros Hy. destruct (YearFromTime_spec t) as [_ Hlt].
  destruct (decide (y ≤ JS.Date.YearFromTime t)) as [|Hgt]; [done|].
  assert (JS.Date.DayFromYear (JS.Date.YearFromTime t + 1) ≤ JS.Date.DayFromYear y)
    by (apply DayFromYear_mono; lia).
  unfold JS.Date.TimeFromYear, JS.Date.msPerDay in *. lia.
Qed.

Example year_2025 :
  JS.Date.YearFromTime 1751846400000 = 2025
  ∧ JS.Date.YearFromTime 1735689599999 = 2024
  ∧ JS.Date.YearFromTime 1735689600000 = 2025
  ∧ JS.Date.YearFromTime (-1) = 1969
  ∧ JS.Date.YearFromTime 951782400000 = 2000.
Proof. repeat split; reflexivity. Qed.

(** The sort is stable: entries with equal keys keep their order. *)
Example sort_sample :
  JS.Array.sort (λ a b : Z * string, a.1 - b.1)
    [(3, "c"); (1, "a"); (3, "d"); (2, "b"); (1, "e")]
  = [(1, "a"); (1, "e"); (2, "b"); (3, "c"); (3, "d")].
Proof. reflexivity. Qed.

(** Array indices come first, in ascending order; then the other keys, in
    creation order. *)
Example entries_sample :
  JS.Object.entries [(2025, "a"); (-3, "b"); (2024, "c"); (-7, "d"); (7, "e")]
  = [(7, "e"); (2024, "c"); (2025, "a"); (-3, "b"); (-7, "d")].
Proof. reflexivity. Qed.

Section sort_facts.
Context {A : Type} (comparefn : A → A → Z).

Lemma insert_Permutation x l : JS.Array.insert comparefn x l ≡ₚ x :: l.
Proof.
  induction l as [|y l IH]; simpl; [done|].
  case_decide; [done|]. rewrite IH. apply Permutation_swap.
Qed.

Lemma sort_Permutation l : JS.Array.sort comparefn l ≡ₚ l.
Proof.
  induction l as [|x l IH]; simpl; [done|].
  by rewrite insert_Permutation, IH.
Qed.

(** A consistent comparator: any two elements are comparable one way or the
    other, and the order it induces is transitive. *)
Context (comparable : ∀ a b, comparefn a b ≤ 0 ∨ comparefn b a ≤ 0).
Context (transitive : ∀ a b c,
  comparefn a b ≤ 0 → comparefn b c ≤ 0 → comparefn a c ≤ 0).

Lemma insert_HdRel x y l :
  JS.Array.inOrder comparefn y x →
  HdRel (JS.Array.inOrder comparefn) y l →
  HdRel (JS.Array.inOrder comparefn) y (JS.Array.insert comparefn x l).
Proof.
  intros Hyx Hhd. destruct l as [|z l]; simpl; [by constructor|].
  inversion_clear Hhd. case_decide; by constructor.
Qed.

Lemma insert_Sorted x l :
  Sorted (JS.Array.inOrder comparefn) l →
  Sorted (JS.Array.inOrder comparefn) (JS.Array.insert comparefn x l).
Proof.
  induction 1 as [|y l Hs IH Hhd]; simpl.
  - repeat constructor.
  - case_decide as Hxy.
    + repeat constructor; done.
    + constructor; [done|]. apply insert_HdRel; [|done].
      unfold JS.Array.inOrder. destruct (comparable x y); [done|done].
Qed.

Lemma sort_Sorted l : Sorted (JS.Array.inOrder comparefn) (JS.Array.sort comparefn l).
Proof. induction l; simpl; [constructor|by apply insert_Sorted]. Qed.

Lemma sort_StronglySorted l :
  StronglySorted (JS.Array.inOrder comparefn) (JS.Array.sort comparefn l).
Proof.
  apply Sorted_StronglySorted; [|apply sort_Sorted].
  intros a b c. apply transitive.
Qed.

End sort_facts.

Section object_facts.
Context {V : Type}.
Implicit Types (o : JS.Object.t V) (k : Z) (v : V).

Lemma get_set_eq o k v : JS.Object.get (JS.Object.set o k v) k = Some v.
Proof.
  induction o as [|[k' v'] o IH]; simpl; [by rewrite decide_True|].
  case_decide; simpl; [by rewrite decide_True|by rewrite decide_False].
Qed.

Lemma get_set_ne o k k' v :
  k ≠ k' → JS.Object.get (JS.Object.set o k v) k' = JS.Object.get o k'.
Proof.
  intros Hne. induction o as [|[k0 v0] o IH]; simpl.
  - by rewrite decide_False.
  - destruct (decide (k = k0)) as [->|]; simpl.
    + by rewrite !decide_False.
    + by rewrite IH.
Qed.

Lemma get_None o k : JS.Object.get o k = None ↔ k ∉ o.*1.
Proof.
  induction o as [|[k' v'] o IH]; simpl.
  - split; [intros _; apply not_elem_of_nil|done].
  - rewrite not_elem_of_cons. case_decide; [naive_solver|]. rewrite IH. naive_solver.
Qed.

Lemma get_Some o k v : NoDup o.*1 → JS.Object.get o k = Some v ↔ (k, v) ∈ o.
Proof.
  induction o as [|[k' v'] o IH]; simpl; intros Hnd.
  - split; [done|]. by intros ?%elem_of_nil.
  - apply NoDup_cons in Hnd as [Hk' Hnd]. rewrite elem_of_cons.
    case_decide as Hk; subst.
    + split; [naive_solver|]. intros [[= ->]|Hin]; [done|].
      destruct Hk'. apply list_elem_of_fmap. by exists (k', v).
    + rewrite IH by done. naive_solver.
Qed.

Lemma keys_set_old o k v :
  k ∈ o.*1 → (JS.Object.set o k v).*1 = o.*1.
Proof.
  induction o as [|[k' v'] o IH]; simpl; [by intros ?%elem_of_nil|].
  intros Hin. case_decide; subst; simpl; [done|].
  f_equal. apply IH. apply elem_of_cons in Hin as [?|?]; done.
Qed.

Lemma set_new o k v :
  k ∉ o.*1 → JS.Object.set o k v = o ++ [(k, v)].
Proof.
  induction o as [|[k' v'] o IH]; simpl; [done|].
  intros [? ?]%not_elem_of_cons. rewrite decide_False by done. by rewrite IH.
Qed.

Lemma NoDup_keys_set o k v : NoDup o.*1 → NoDup (JS.Object.set o k v).*1.
Proof.
  intros Hnd. destruct (decide (k ∈ o.*1)).
  - by rewrite keys_set_old.
  - rewrite set_new, fmap_app by done. simpl.
    apply NoDup_app. split_and!; [done| |apply NoDup_singleton].
    intros x Hx ->%list_elem_of_singleton. done.
Qed.

End object_facts.

(** Replacing a bucket by the bucket with one more post adds that post to
    what the buckets hold together. *)
Lemma concat_set_push {A} (o : JS.Object.t (list A)) k bucket x :
  JS.Object.get o k = Some bucket →
  List.concat (JS.Object.set o k (JS.Array.push bucket x)).*2 ≡ₚ x :: List.concat o.*2.
Proof.
  induction o as [|[k' b'] o IH]; simpl; [done|].
  case_decide; subst; simpl.
  - intros [= ->]. unfold JS.Array.push.
    rewrite <-(assoc_L (++)). simpl.
    by rewrite <-Permutation_middle.
  - intros Hget. rewrite IH by done. by rewrite Permutation_middle.
Qed.

Lemma set_set {V} (o : JS.Object.t V) k v v' :
  JS.Object.set (JS.Object.set o k v) k v' = JS.Object.set o k v'.
Proof.
  induction o as [|[k' b'] o IH]; simpl; [by rewrite decide_True|].
  case_decide; simpl; [by rewrite decide_True|].
  rewrite decide_False by done. by rewrite IH.
Qed.

Lemma entries_Permutation {V} (o : JS.Object.t V) : JS.Object.entries o ≡ₚ o.
Proof.
  unfold JS.Object.entries. rewrite sort_Permutation.
  induction o as [|e o IH]; simpl; [done|].
  destruct (JS.Object.isArrayIndex e.1); simpl.
  - by rewrite IH.
  - by rewrite <-Permutation_middle, IH.
Qed.

Lemma StronglySorted_filter {A} (R : relation A) (P : A → Prop)
    `{!∀ x, Decision (P x)} l :
  StronglySorted R l → StronglySorted R (filter P l).
Proof.
  induction 1 as [|x l Hs IH Hall]; [constructor|].
  rewrite filter_cons. case_decide; [|done].
  constructor; [done|].
  apply Forall_forall. intros y [_ Hy]%list_elem_of_filter.
  by eapply Forall_forall in Hall.
Qed.

Lemma StronglySorted_mono {A} (R R' : relation A) l :
  (∀ a b, R a b → R' a b) → StronglySorted R l → StronglySorted R' l.
Proof.
  intros HR. induction 1 as [|x l Hs IH Hall]; constructor; [done|].
  eapply Forall_impl; [done|]. intros y. apply HR.
Qed.

(** A list in non-increasing order without repetition is in decreasing
    order. *)
Lemma StronglySorted_strict (l : list Z) :
  StronglySorted (λ a b, b ≤ a) l → NoDup l → StronglySorted (λ a b, b < a) l.
Proof.
  induction 1 as [|x l Hs IH Hall]; intros Hnd; [constructor|].
  apply NoDup_cons in Hnd as [Hx Hnd].
  constructor; [by apply IH|].
  apply Forall_forall. intros y Hy.
  eapply Forall_forall in Hall; [|done].
  assert (x ≠ y) by (by intros ->). lia.
Qed.

(* ===================================================================== *)
(** * app/article/page.tsx: grouping the posts by year *)
(* ===================================================================== *)

Section article_facts.
Context `{!JS.Date.TimeZone}.
Import JS Article.

Lemma ofYear_snoc y seen post :
  ofYear y (seen ++ [post])
  = ofYear y seen ++ (if decide (Date.getFullYear (date post) = y) then [post] else []).
Proof.
  unfold ofYear. by rewrite filter_app.
Qed.

(** One step of the [reduce]: the guard has created the bucket before the
    [push] reads it, so the step does not throw, and it keeps the grouping. *)
Lemma reducer_groups seen o post :
  groups seen o →
  ∃ o', reducer o post = Normal o' ∧ groups (seen ++ [post]) o'.
Proof.
  intros (Hnd & Hget & Hcat). unfold reducer.
  set (year := Date.getFullYear (date post)).
  pose proof (Hget year) as Hyear.
  destruct (Object.get o year) as [bucket|] eqn:Hbucket; simpl.
  - rewrite Hbucket. eexists; split; [done|]. split_and!.
    + by apply NoDup_keys_set.
    + intros y. rewrite ofYear_snoc. fold year.
      destruct (decide (year = y)) as [<-|Hne].
      * rewrite get_set_eq. unfold Array.push.
        destruct (ofYear year seen) as [|p ps]; [done|].
        injection Hyear as ->. done.
      * rewrite get_set_ne, app_nil_r by done. apply Hget.
    + rewrite concat_set_push by done. rewrite Hcat.
      by rewrite <-Permutation_cons_append.
  - rewrite get_set_eq, set_set. unfold Array.push. simpl.
    apply get_None in Hbucket.
    eexists; split; [done|]. split_and!.
    + by apply NoDup_keys_set.
    + intros y. rewrite ofYear_snoc. fold year.
      destruct (decide (year = y)) as [<-|Hne].
      * rewrite get_set_eq.
        by destruct (ofYear year seen).
      * rewrite get_set_ne, app_nil_r by done. apply Hget.
    + rewrite set_new by done.
      rewrite fmap_app, concat_app. simpl. by rewrite Hcat.
Qed.

Lemma reduce_groups posts seen o :
  groups seen o →
  ∃ o', Array.reduce reducer posts o = Normal o' ∧ groups (seen ++ posts) o'.
Proof.
  revert seen o. induction posts as [|post posts IH]; intros seen o Hgr; simpl.
  - exists o. by rewrite app_nil_r.
  - destruct (reducer_groups _ _ post Hgr) as (o1 & -> & Hgr1). simpl.
    destruct (IH _ _ Hgr1) as (o' & Hred & Hgr').
    exists o'. split; [done|]. by rewrite <-(assoc_L (++)) in Hgr'.
Qed.

Lemma groups_empty : groups [] Object.empty.
Proof. split_and!; [constructor|done|done]. Qed.

Lemma postsByYear_groups allArticles :
  ∃ byYear,
    postsByYear allArticles = Normal byYear
    ∧ groups (Array.sort newestFirst allArticles) byYear.
Proof. apply (reduce_groups _ [] _ groups_empty). Qed.

Lemma newestFirst_sorted allArticles :
  StronglySorted notOlder (Array.sort newestFirst allArticles).
Proof.
  apply (StronglySorted_mono (Array.inOrder newestFirst)).
  - unfold Array.inOrder, newestFirst, notOlder. intros; lia.
  - apply sort_StronglySorted; unfold newestFirst; intros; lia.
Qed.

(** A property of the bucket that an entry of the grouping holds. *)
Lemma groups_entry seen o y bucket :
  groups seen o → (y, bucket) ∈ o → bucket = ofYear y seen ∧ bucket ≠ [].
Proof.
  intros (Hnd & Hget & _) Hin. apply get_Some in Hin; [|done].
  rewrite Hget in Hin. destruct (ofYear y seen); [done|].
  by injection Hin as <-.
Qed.

(** The years of the rendered sections are the keys of the object, in the
    order of the sorted entries. *)
Lemma renderedYears_Posts (o : Object.t (list Post)) :
  renderedYears (Posts o) = (Array.sort byYearDesc (Object.entries o)).*1.
Proof.
  unfold renderedYears, Posts. rewrite fmap_imap.
  rewrite <-(imap_const fst). apply imap_ext. by intros i [y posts] _.
Qed.

Lemma Posts_years_StronglySorted (o : Object.t (list Post)) :
  NoDup o.*1 →
  StronglySorted (λ earlier later, later < earlier) (renderedYears (Posts o)).
Proof.
  intros Hnd. rewrite renderedYears_Posts.
  apply StronglySorted_strict.
  - apply StronglySorted_fmap with (R1 := Array.inOrder byYearDesc).
    + unfold Array.inOrder, byYearDesc. intros a b. lia.
    + apply sort_StronglySorted; unfold byYearDesc; intros; lia.
  - by rewrite sort_Permutation, entries_Permutation.
Qed.

(** C1.  [postsByYear] partitions the articles by year.  For every list
    of articles the computation returns an object in which
    - no year keys two buckets;
    - the buckets together hold the articles, each as often as the list
      does;
    - an entry keyed [y] exists exactly when some article is of year [y],
      and its bucket is then the articles of year [y], in the order of the
      sorted list;
    - so a bucket keyed [y] holds exactly the articles whose year is [y];
    - and every article is in the bucket keyed by its year, and in no
      bucket under another key. *)
Theorem postsByYear_partition (allArticles : list Post) :
  ∃ byYear,
    postsByYear allArticles = Normal byYear
    ∧ NoDup byYear.*1
    ∧ List.concat byYear.*2 ≡ₚ allArticles
    ∧ (∀ y bucket,
         (y, bucket) ∈ byYear
         ↔ bucket ≠ [] ∧ bucket = ofYear y (Array.sort newestFirst allArticles))
    ∧ (∀ y bucket,
         (y, bucket) ∈ byYear →
         bucket ≡ₚ ofYear y allArticles
         ∧ ∀ post, post ∈ bucket
                   ↔ post ∈ allArticles ∧ Date.getFullYear (date post) = y)
    ∧ (∀ post,
         post ∈ allArticles →
         (∃ bucket,
            Object.get byYear (Date.getFullYear (date post)) = Some bucket
            ∧ post ∈ bucket)
         ∧ ∀ y bucket,
             (y, bucket) ∈ byYear → post ∈ bucket →
             y = Date.getFullYear (date post)).
Proof.
  destruct (postsByYear_groups allArticles) as (byYear & Hrun & Hgr).
  pose proof Hgr as (Hnd & Hget & Hcat).
  pose proof (sort_Permutation newestFirst allArticles) as Hperm.
  assert (Hbucket : ∀ y bucket, (y, bucket) ∈ byYear →
            bucket ≡ₚ ofYear y allArticles
            ∧ ∀ post, post ∈ bucket
                      ↔ post ∈ allArticles ∧ Date.getFullYear (date post) = y).
  { intros y bucket [-> Hne]%(groups_entry _ _ _ _ Hgr). split.
    - unfold ofYear. by rewrite Hperm.
    - intros post. unfold ofYear. rewrite list_elem_of_filter, Hperm. tauto. }
  exists byYear. split_and!; [done|done|by rewrite Hcat| |done|].
  - intros y bucket. split.
    + intros Hin. destruct (groups_entry _ _ _ _ Hgr Hin). done.
    + intros [Hne ->]. apply get_Some; [done|]. rewrite Hget.
      by destruct (ofYear y _).
  - intros post Hpost. split.
    + assert (Hin : post ∈ ofYear (Date.getFullYear (date post))
                             (Array.sort newestFirst allArticles)).
      { unfold ofYear. apply list_elem_of_filter. by rewrite Hperm. }
      rewrite Hget.
      destruct (ofYear _ _) as [|p ps]; [by apply elem_of_nil in Hin|].
      by eexists.
    + intros y bucket Hin Hpb. apply Hbucket in Hin as [_ Hiff].
      apply Hiff in Hpb as [_ Hy]. done.
Qed.

(** C7.  Within every year bucket of [postsByYear] the posts stand newest
    first: of any two posts of a bucket, the one that comes earlier has a
    time value ([date.getTime()]) at least that of the later one; in
    particular this holds for neighbours. *)
Theorem postsByYear_buckets_newest_first (allArticles : list Post) :
  ∃ byYear,
    postsByYear allArticles = Normal byYear
    ∧ Forall (λ entry, StronglySorted notOlder entry.2
                       ∧ Sorted notOlder entry.2) byYear.
Proof.
  destruct (postsByYear_groups allArticles) as (byYear & Hrun & Hgr).
  exists byYear. split; [done|].
  apply Forall_forall. intros [y bucket] Hin. simpl.
  apply (groups_entry _ _ _ _ Hgr) in Hin as [-> _].
  assert (StronglySorted notOlder (ofYear y (Array.sort newestFirst allArticles)))
    by apply StronglySorted_filter, newestFirst_sorted.
  split; [done|by apply StronglySorted_Sorted].
Qed.

(** C8.  The article page lists the year sections in strictly decreasing
    year order: [Posts] renders one section per key of [postsByYear], and of
    two sections the earlier one has the greater year; in particular every
    section's year is greater than the year of the section that follows
    it. *)
Theorem Posts_years_decreasing (allArticles : list Post) :
  ∃ byYear,
    postsByYear allArticles = Normal byYear
    ∧ renderedYears (Posts byYear) ≡ₚ byYear.*1
    ∧ StronglySorted (λ earlier later, later < earlier)
        (renderedYears (Posts byYear))
    ∧ Sorted (λ earlier later, later < earlier) (renderedYears (Posts byYear)).
Proof.
  destruct (postsByYear_groups allArticles) as (byYear & Hrun & Hnd & _).
  exists byYear. split_and!; [done| | |].
  - by rewrite renderedYears_Posts, sort_Permutation, entries_Permutation.
  - by apply Posts_years_StronglySorted.
  - by apply StronglySorted_Sorted, Posts_years_StronglySorted.
Qed.

End article_facts.

(** The sample articles, in a host that runs in UTC. *)
Example postsByYear_sample :
  Article.postsByYear (H := JS.Date.UTC) Sample.allArticles
  = JS.Normal
      [(2025, [Sample.opentelemetry; Sample.rag; Sample.prometheus]);
       (2024, [Sample.older])].
Proof. vm_compute. reflexivity. Qed.

Example Posts_sample :
  Article.renderedYears
    (Article.Posts
       [(2024, [Sample.older]);
        (2025, [Sample.opentelemetry; Sample.rag; Sample.prometheus])])
  = [2025; 2024].
Proof. reflexivity. Qed.

Lemma postsByYear_partition_sample :
  ∃ byYear,
    Article.postsByYear (H := JS.Date.UTC) Sample.allArticles = JS.Normal byYear
    ∧ byYear.*1 = [2025; 2024]
    ∧ ∃ bucket, JS.Object.get byYear 2025 = Some bucket ∧ Sample.rag ∈ bucket.
Proof.
  destruct (@postsByYear_partition JS.Date.UTC Sample.allArticles)
    as (byYear & Hrun & _ & _ & _ & _ & Hpost).
  exists byYear. split; [exact Hrun|]. split.
  - vm_compute in Hrun. injection Hrun as <-. reflexivity.
  - assert (Hin : Sample.rag ∈ Sample.allArticles)
      by (do 3 apply list_elem_of_further; apply list_elem_of_here).
    exact (proj1 (Hpost Sample.rag Hin)).
Defined.

Lemma postsByYear_buckets_newest_first_sample :
  ∃ byYear,
    Article.postsByYear (H := JS.Date.UTC) Sample.allArticles = JS.Normal byYear
    ∧ Forall (λ entry, StronglySorted Article.notOlder entry.2
                       ∧ Sorted Article.notOlder entry.2) byYear.
Proof. exact (@postsByYear_buckets_newest_first JS.Date.UTC Sample.allArticles). Defined.

Lemma Posts_years_decreasing_sample :
  ∃ byYear,
    Article.postsByYear (H := JS.Date.UTC) Sample.allArticles = JS.Normal byYear
    ∧ Article.renderedYears (Article.Posts byYear) = [2025; 2024].
Proof.
  destruct (@Posts_years_decreasing JS.Date.UTC Sample.allArticles)
    as (byYear & Hrun & _).
  exists byYear. split; [exact Hrun|].
  vm_compute in Hrun. injection Hrun as <-. reflexivity.
Defined.

(* ===================================================================== *)
(** * content-collections.ts: what the transforms return *)
(* ===================================================================== *)

Lemma replace_get c r s i :
  String.get i (JS.Str.replace c r s)
  = (λ a, if decide (a = c) then r else a) <$> String.get i s.
Proof.
  revert i. induction s as [|a s IH]; intros i; simpl; [done|].
  destruct i; simpl; [done|apply IH].
Qed.

Lemma replace_length c r s :
  String.length (JS.Str.replace c r s) = String.length s.
Proof. induction s; simpl; [done|by f_equal]. Qed.

Lemma replace_contains c r s :
  c ≠ r → JS.Str.contains c (JS.Str.replace c r s) = false.
Proof.
  intros Hne. induction s as [|a s IH]; simpl; [done|].
  rewrite IH, orb_false_r. apply bool_decide_eq_false.
  case_decide; congruence.
Qed.

Section collections_facts.
Context `{!Collections.Library}.
Import JS Collections.

(** What a transform has returned, when it has returned an object. *)
Lemma pages_transform_Resolved page context r :
  pages.transform page context = Resolved r →
  compileMDX context (pages.document page)
    {| remarkPlugins := [Plain remarkGfm];
       rehypePlugins := [WithOptions rehypeCode rehypeCodeOptions;
                         Plain remarkHeading] |}
  = Resolved (pages.body r)
  ∧ pages._meta' r
    = {| filePath := filePath (pages._meta page);
         fileName := fileName (pages._meta page);
         directory := directory (pages._meta page);
         extension := extension (pages._meta page);
         path := normalize (path (pages._meta page)) |}.
Proof.
  unfold pages.transform. destruct (compileMDX _ _ _) as [body|e]; simpl; [|done].
  by intros [= <-].
Qed.

Lemma posts_transform_Resolved page context r :
  posts.transform page context = Resolved r →
  compileMDX context (posts.document page)
    {| remarkPlugins := [Plain remarkGfm];
       rehypePlugins := [WithOptions rehypeCode rehypeCodeOptions;
                         Plain remarkHeading] |}
  = Resolved (posts.body r)
  ∧ posts.slug r = normalize (path (posts._meta page))
  ∧ posts.readingTime' r = text (readingTime (posts.content page))
  ∧ posts._meta' r
    = {| filePath := filePath (posts._meta page);
         fileName := fileName (posts._meta page);
         directory := directory (posts._meta page);
         extension := extension (posts._meta page);
         path := normalize (path (posts._meta page)) |}.
Proof.
  unfold posts.transform. destruct (compileMDX _ _ _) as [body|e]; simpl; [|done].
  by intros [= <-].
Qed.

Lemma pages_transform_resolves page context body :
  compileMDX context (pages.document page)
    {| remarkPlugins := [Plain remarkGfm];
       rehypePlugins := [WithOptions rehypeCode rehypeCodeOptions;
                         Plain remarkHeading] |}
  = Resolved body →
  ∃ r, pages.transform page context = Resolved r ∧ pages.body r = body.
Proof. intros Hc. unfold pages.transform. rewrite Hc. simpl. by eexists. Qed.

Lemma posts_transform_resolves page context body :
  compileMDX context (posts.document page)
    {| remarkPlugins := [Plain remarkGfm];
       rehypePlugins := [WithOptions rehypeCode rehypeCodeOptions;
                         Plain remarkHeading] |}
  = Resolved body →
  ∃ r, posts.transform page context = Resolved r ∧ posts.body r = body.
Proof. intros Hc. unfold posts.transform. rewrite Hc. simpl. by eexists. Qed.

(** C2.  The posts collection computes the reading time.  Whenever the
    posts transform returns an object for a post, the object's
    [readingTime] is the [text] of [readingTime(page.content)], the
    estimate for the post's raw MDX content; and the transform does return
    an object whenever the MDX of the post compiles. *)
Theorem posts_transform_readingTime (page : posts.input) (context : Context_) :
  (∀ post,
     posts.transform page context = Resolved post →
     posts.readingTime' post = text (readingTime (posts.content page)))
  ∧ (∀ body,
       compileMDX context (posts.document page)
         {| remarkPlugins := [Plain remarkGfm];
            rehypePlugins :=
              [WithOptions rehypeCode
                 {| themes := {| light := "github-light";
                                 dark := "github-dark-default" |} |};
               Plain remarkHeading] |}
       = Resolved body →
       ∃ post, posts.transform page context = Resolved post).
Proof.
  split.
  - intros post Hpost. by apply posts_transform_Resolved in Hpost as (_ & _ & ? & _).
  - intros body Hbody.
    destruct (posts_transform_resolves page context body Hbody) as (r & ? & _).
    by exists r.
Qed.

(** C3.  Both collections compile MDX.  For a page of the pages collection
    and for a post of the posts collection alike: the object that the
    transform returns has as [body] what [compileMDX] resolved with, when
    applied to that document with [remarkGfm] as remark plugin and, as
    rehype plugins, [rehypeCode] (themes github-light and
    github-dark-default) and then [remarkHeading]; and whenever that call
    resolves, the transform returns an object, whose [body] is that
    result. *)
Theorem transforms_compile_MDX :
  (∀ (page : pages.input) (context : Context_),
     let compiled :=
       compileMDX context
         {| Collections._meta := pages._meta page;
            Collections.content := pages.content page |}
         {| remarkPlugins := [Plain remarkGfm];
            rehypePlugins :=
              [WithOptions rehypeCode
                 {| themes := {| light := "github-light";
                                 dark := "github-dark-default" |} |};
               Plain remarkHeading] |} in
     (∀ r, pages.transform page context = Resolved r →
           compiled = Resolved (pages.body r))
     ∧ (∀ body, compiled = Resolved body →
           ∃ r, pages.transform page context = Resolved r ∧ pages.body r = body))
  ∧ (∀ (page : posts.input) (context : Context_),
       let compiled :=
         compileMDX context
           {| Collections._meta := posts._meta page;
              Collections.content := posts.content page |}
           {| remarkPlugins := [Plain remarkGfm];
              rehypePlugins :=
                [WithOptions rehypeCode
                   {| themes := {| light := "github-light";
                                   dark := "github-dark-default" |} |};
                 Plain remarkHeading] |} in
       (∀ r, posts.transform page context = Resolved r →
             compiled = Resolved (posts.body r))
       ∧ (∀ body, compiled = Resolved body →
             ∃ r, posts.transform page context = Resolved r ∧ posts.body r = body)).
Proof.
  split; intros page context compiled; split.
  - intros r Hr. by apply pages_transform_Resolved in Hr as [? _].
  - apply pages_transform_resolves.
  - intros r Hr. by apply posts_transform_Resolved in Hr as [? _].
  - apply posts_transform_resolves.
Qed.

(** C9.  Both transforms normalize the path.  In the object that a
    transform returns, [_meta.path] is the input's [_meta.path] with every
    backslash replaced by a forward slash: it has the same length, at every
    position it has the input's character, or a forward slash where the
    input has a backslash, and so it contains no backslash.  For a post,
    [slug] is that same normalized path. *)
Theorem transforms_normalize_path :
  (∀ (page : pages.input) (context : Context_) r,
     pages.transform page context = Resolved r →
     let normalized := path (pages._meta' r) in
     normalized = Str.replace Str.backslash Str.slash (path (pages._meta page))
     ∧ String.length normalized = String.length (path (pages._meta page))
     ∧ (∀ i, String.get i normalized
             = (λ a, if decide (a = Str.backslash) then Str.slash else a)
                 <$> String.get i (path (pages._meta page)))
     ∧ Str.contains Str.backslash normalized = false)
  ∧ (∀ (page : posts.input) (context : Context_) r,
       posts.transform page context = Resolved r →
       let normalized := path (posts._meta' r) in
       normalized = Str.replace Str.backslash Str.slash (path (posts._meta page))
       ∧ String.length normalized = String.length (path (posts._meta page))
       ∧ (∀ i, String.get i normalized
               = (λ a, if decide (a = Str.backslash) then Str.slash else a)
                   <$> String.get i (path (posts._meta page)))
       ∧ Str.contains Str.backslash normalized = false
       ∧ posts.slug r = normalized).
Proof.
  split; intros page context r Hr normalized; subst normalized.
  - apply pages_transform_Resolved in Hr as [_ ->]. simpl. unfold normalize.
    split_and!; [done|apply replace_length|apply replace_get|by apply replace_contains].
  - apply posts_transform_Resolved in Hr as (_ & Hslug & _ & ->). simpl.
    unfold normalize in *.
    split_and!; [done|apply replace_length|apply replace_get
                |by apply replace_contains|done].
Qed.

End collections_facts.

(** The transforms on the sample documents. *)
Lemma posts_transform_readingTime_hello :
  ∃ post,
    Collections.posts.transform (H := Sample.library) Sample.hello tt
    = JS.Resolved post
    ∧ Collections.posts.readingTime' post = "1 min read".
Proof.
  eexists. split; [reflexivity|].
  apply (proj1 (@posts_transform_readingTime Sample.library Sample.hello tt)).
  reflexivity.
Defined.

Lemma transforms_compile_MDX_samples :
  (∃ r, Collections.pages.transform (H := Sample.library) Sample.about tt
        = JS.Resolved r
        ∧ Collections.pages.body r = "compiled: # About")
  ∧ (∃ r, Collections.posts.transform (H := Sample.library) Sample.hello tt
          = JS.Resolved r
          ∧ Collections.posts.body r = "compiled: # Hello").
Proof.
  split.
  - apply (proj2 (proj1 (@transforms_compile_MDX Sample.library) Sample.about tt)).
    reflexivity.
  - apply (proj2 (proj2 (@transforms_compile_MDX Sample.library) Sample.hello tt)).
    reflexivity.
Defined.

Lemma transforms_normalize_path_samples :
  (∃ r, Collections.pages.transform (H := Sample.library) Sample.about tt
        = JS.Resolved r
        ∧ Collections.path (Collections.pages._meta' r) = "pages/about")
  ∧ (∃ r, Collections.posts.transform (H := Sample.library) Sample.hello tt
          = JS.Resolved r
          ∧ Collections.path (Collections.posts._meta' r) = "blog/hello"
          ∧ Collections.posts.slug r = "blog/hello").
Proof.
  split.
  - eexists. split; [reflexivity|].
    apply (proj1 (@transforms_normalize_path Sample.library) Sample.about tt).
    reflexivity.
  - eexists. split; [reflexivity|].
    pose proof (proj2 (@transforms_normalize_path Sample.library) Sample.hello tt
                  _ eq_refl) as (Hpath & _ & _ & _ & Hslug).
    split; [exact Hpath|]. rewrite Hslug. exact Hpath.
Defined.

(* ===================================================================== *)
(** * Failure: what can throw and what cannot *)
(* ===================================================================== *)

(** A post whose MDX does not compile makes the posts transform reject,
    with the compiler's error: for this post the transform returns no
    object.  (A post that compiles, such as one with a lone less-than sign
    in its text, is returned.) *)
Lemma posts_transform_rejects_broken :
  Collections.compileMDX (Library := Sample.library) tt
    (Collections.posts.document Sample.broken)
    {| Collections.remarkPlugins := [Collections.Plain Collections.remarkGfm];
       Collections.rehypePlugins :=
         [Collections.WithOptions Collections.rehypeCode Collections.rehypeCodeOptions;
          Collections.Plain Collections.remarkHeading] |}
  = JS.Rejected
      (JS.HostError
         "Unexpected end of file in expression, expected a corresponding closing brace for `{`")
  ∧ Collections.posts.transform (H := Sample.library) Sample.broken tt
    = JS.Rejected
        (JS.HostError
           "Unexpected end of file in expression, expected a corresponding closing brace for `{`")
  ∧ ¬ (∃ post,
         Collections.posts.transform (H := Sample.library) Sample.broken tt
         = JS.Resolved post)
  ∧ (∃ post,
       Collections.posts.transform (H := Sample.library) Sample.comparison tt
       = JS.Resolved post).
Proof.
  split_and!; [reflexivity|reflexivity| |by eexists].
  intros [post Hpost]. discriminate Hpost.
Qed.

(** C4, amended.  The grouping and the transforms have no failure handling
    and no error branch of their own.  [postsByYear] (sort, then reduce)
    returns normally for every list of posts.  A transform returns its
    object whenever its [compileMDX] call resolves; when that call rejects,
    the transform rejects with the same reason. *)
Theorem no_failure_handling :
  (∀ (zone : JS.Date.TimeZone) (allArticles : list Article.Post),
     ∃ byYear, Article.postsByYear allArticles = JS.Normal byYear)
  ∧ (∀ (library : Collections.Library) (page : Collections.pages.input)
       (context : Collections.Context_),
       match
         Collections.compileMDX context (Collections.pages.document page)
           {| Collections.remarkPlugins := [Collections.Plain Collections.remarkGfm];
              Collections.rehypePlugins :=
                [Collections.WithOptions Collections.rehypeCode
                   Collections.rehypeCodeOptions;
                 Collections.Plain Collections.remarkHeading] |}
       with
       | JS.Resolved body =>
           ∃ r, Collections.pages.transform page context = JS.Resolved r
       | JS.Rejected reason =>
           Collections.pages.transform page context = JS.Rejected reason
       end)
  ∧ (∀ (library : Collections.Library) (page : Collections.posts.input)
       (context : Collections.Context_),
       match
         Collections.compileMDX context (Collections.posts.document page)
           {| Collections.remarkPlugins := [Collections.Plain Collections.remarkGfm];
              Collections.rehypePlugins :=
                [Collections.WithOptions Collections.rehypeCode
                   Collections.rehypeCodeOptions;
                 Collections.Plain Collections.remarkHeading] |}
       with
       | JS.Resolved body =>
           ∃ r, Collections.posts.transform page context = JS.Resolved r
       | JS.Rejected reason =>
           Collections.posts.transform page context = JS.Rejected reason
       end).
Proof.
  split_and!.
  - intros zone allArticles.
    destruct (postsByYear_groups allArticles) as (byYear & Hrun & _).
    by exists byYear.
  - intros library page context. unfold Collections.pages.transform.
    destruct (Collections.compileMDX _ _ _); simpl; [by eexists|done].
  - intros library page context. unfold Collections.posts.transform.
    destruct (Collections.compileMDX _ _ _); simpl; [by eexists|done].
Qed.

(* ===================================================================== *)
(** * components/local-time.tsx: the clock widget *)
(* ===================================================================== *)

Section clock_facts.
Context `{!Clock.Intl}.
Import JS Clock.

Lemma step_consistent w e : consistent w → consistent (step w e).
Proof.
  unfold consistent. destruct w as [[act next] [i|]], e as [now|id now|]; simpl;
    intros Hact; try done.
  - destruct (act !! id) as [[[] ms]|]; simpl; done.
  - subst act. apply delete_singleton_eq.
  - subst act. apply insert_empty.
  - by destruct (act !! id).
Qed.

Lemma run_snoc events e : run (events ++ [e]) = step (run events) e.
Proof. unfold run. by rewrite foldl_snoc. Qed.

Lemma run_consistent events : consistent (run events).
Proof.
  induction events as [|e events IH] using rev_ind; [done|].
  rewrite run_snoc. by apply step_consistent.
Qed.

(** C5.  The clock widget displays the current time and refreshes it every
    second.
    - Whatever Date its state holds, [LocalTime] renders that time
      formatted by [Intl.DateTimeFormat] for the locale de-DE in the time
      zone Europe/Berlin, with 2-digit hour, minute and second.
    - After any history, a mounted component has exactly one interval
      registered with the host, with a period of 1000 milliseconds, and an
      unmounted one has none.
    - Mounting displays the time of mounting, and every firing of the
      interval displays the time read at the firing.
    - Unmounting clears the interval: none is left, and no firing reaches
      the component any more. *)
Theorem LocalTime_clock :
  (∀ i : Instance,
     LocalTime i
     = React.Element "p"
         [("className", "hidden text-foreground-lighter tabular-nums sm:block")]
         [React.Text
            (DateTimeFormat "de-DE"
               {| hour := Some two_digit; minute := Some two_digit;
                  second := Some two_digit; timeZone := Some "Europe/Berlin" |}
               (time i))])
  ∧ (∀ events,
       match mounted (run events) with
       | Some i =>
           active (timers (run events))
           = {[ interval i := {| handler := refresh; timeout := 1000 |} ]}
       | None => active (timers (run events)) = ∅
       end)
  ∧ (∀ events now,
       mounted (run events) = None →
       displayed (run (events ++ [mount now]))
       = Some (LocalTime {| time := now; interval := nextId (timers (run events)) |}))
  ∧ (∀ events id now,
       is_Some (active (timers (run events)) !! id) →
       displayed (run (events ++ [fire id now]))
       = Some (LocalTime {| time := now; interval := id |}))
  ∧ (∀ events,
       let w := run (events ++ [unmount]) in
       mounted w = None
       ∧ active (timers w) = ∅
       ∧ ∀ id now, step w (fire id now) = w).
Proof.
  split_and!.
  - done.
  - intros events. apply run_consistent.
  - intros events now Hm. rewrite run_snoc. unfold displayed. simpl. by rewrite Hm.
  - intros events id now [t Ht]. rewrite run_snoc. unfold displayed. simpl.
    rewrite Ht.
    pose proof (run_consistent events) as Hc. unfold consistent in Hc.
    destruct (mounted (run events)) as [i|]; simpl.
    + rewrite Hc in Ht. apply lookup_singleton_Some in Ht as [<- <-]. done.
    + rewrite Hc in Ht. by rewrite lookup_empty in Ht.
  - intros events w.
    assert (Hm : mounted w = None).
    { subst w. rewrite run_snoc. simpl.
      by destruct (mounted (run events)) eqn:Hmounted. }
    pose proof (run_consistent (events ++ [unmount])) as Hc.
    unfold consistent in Hc. fold w in Hc. rewrite Hm in Hc.
    split_and!; [done|done|].
    intros id now. simpl. by rewrite Hc, lookup_empty.
Qed.

End clock_facts.

Example run_sample :
  Clock.mounted
    (Clock.run [Clock.mount (JS.Date.mk 0); Clock.fire 0 (JS.Date.mk 1000);
                Clock.fire 0 (JS.Date.mk 2000)])
  = Some {| Clock.time := JS.Date.mk 2000; Clock.interval := 0 |}
  ∧ Clock.mounted
      (Clock.run [Clock.mount (JS.Date.mk 0); Clock.unmount;
                  Clock.fire 0 (JS.Date.mk 1000)])
    = None.
Proof. split; reflexivity. Qed.

(** One second of the clock: mounted at time value 0, refreshed at 1000. *)
Lemma LocalTime_clock_second :
  is_Some (Clock.active (Clock.timers (Clock.run [Clock.mount (JS.Date.mk 0)])) !! 0%nat)
  ∧ Clock.displayed (H := Sample.intl)
      (Clock.run ([Clock.mount (JS.Date.mk 0)] ++ [Clock.fire 0 (JS.Date.mk 1000)]))
    = Some (JS.React.Element "p"
              [("className", "hidden text-foreground-lighter tabular-nums sm:block")]
              [JS.React.Text "later"]).
Proof.
  assert (Hfired : is_Some (Clock.active (Clock.timers
                     (Clock.run [Clock.mount (JS.Date.mk 0)])) !! 0%nat))
    by (eexists; reflexivity).
  split; [exact Hfired|].
  exact (proj1 (proj2 (proj2 (proj2 (@LocalTime_clock Sample.intl))))
           [Clock.mount (JS.Date.mk 0)] 0%nat (JS.Date.mk 1000) Hfired).
Defined.

(* ===================================================================== *)
(** * components/json-ld.tsx: the JSON-LD injector *)
(* ===================================================================== *)

(** A backslash is escaped, a line feed becomes a two-character escape. *)
Example stringify_sample :
  Schema.stringify
    (Schema.JArray
       [Schema.JString "a\b"; Schema.JString (String "010"%char "c")])
  = "[" +:+ String Schema.quotation_mark "a\\b" +:+ String Schema.quotation_mark ","
    +:+ String Schema.quotation_mark "\nc" +:+ String Schema.quotation_mark "]".
Proof. reflexivity. Qed.

Section schema_facts.
Context `{!Schema.Environment}.
Import JS Schema.

Lemma scheme_baseUrl : scheme baseUrl = protocol.
Proof. unfold baseUrl, protocol. by case_decide. Qed.

(** C6.  The JSON-LD injector.  Once the module has built [person],
    [JsonLd] renders one element, a [script] of type application/ld+json,
    whose text is [JSON.stringify(person)]; [person] has [@context]
    https://schema.org, [@type] Person, [name] Felix Arjuna, as [sameAs]
    the [href]s of the social links, in their order, and a [url] made of a
    protocol, [://] and the production host, where the protocol is https
    exactly when NODE_ENV is production, and http otherwise. *)
Theorem JsonLd_person (p : JSON) :
  person = Normal p →
  rendered = Normal (JsonLd p)
  ∧ JsonLd p
    = React.Element "script" [("type", "application/ld+json")]
        [React.Text (stringify p)]
  ∧ React.count "script" (JsonLd p) = 1%nat
  ∧ property "@context" p = Some (JString "https://schema.org")
  ∧ property "@type" p = Some (JString "Person")
  ∧ property "name" p = Some (JString "Felix Arjuna")
  ∧ property "sameAs" p = Some (JArray (JString <$> ((λ e, href e.2) <$> social)))
  ∧ ∃ url,
      property "url" p = Some (JString url)
      ∧ url = scheme url +:+ "://" +:+ VERCEL_PROJECT_PRODUCTION_URL
      ∧ (scheme url = "https" ↔ NODE_ENV = Some "production")
      ∧ (NODE_ENV ≠ Some "production" → scheme url = "http").
Proof.
  intros Hp. unfold rendered. rewrite Hp. simpl.
  unfold person in Hp. destruct (URL _ _) as [image|e]; simpl in Hp; [|done].
  injection Hp as <-.
  split_and!; try done.
  exists baseUrl. rewrite scheme_baseUrl. split_and!; [done|done| |].
  - unfold protocol. case_decide; [done|]. split; [done|]. by intros ?.
  - intros Hne. unfold protocol. by rewrite decide_False.
Qed.

End schema_facts.

(** The injector in production and in development. *)
Lemma JsonLd_person_production :
  ∃ p,
    Schema.person (H := Sample.environment (Some "production")) = JS.Normal p
    ∧ Schema.property "url" p = Some (Schema.JString "https://felixarjuna.dev")
    ∧ JS.React.count "script" (Schema.JsonLd p) = 1%nat.
Proof.
  eexists. split; [reflexivity|]. split; [reflexivity|].
  exact (proj1 (proj2 (proj2
           (@JsonLd_person (Sample.environment (Some "production")) _ eq_refl)))).
Defined.

Example JsonLd_development :
  ∃ p,
    Schema.person (H := Sample.environment (Some "development")) = JS.Normal p
    ∧ Schema.property "url" p = Some (Schema.JString "http://felixarjuna.dev").
Proof. eexists. split; reflexivity. Qed.

(* ===================================================================== *)
(** * More about the sort *)
(* ===================================================================== *)

Section sort_more.
Context {A : Type} (comparefn : A → A → Z).

Lemma insert_front x l :
  HdRel (JS.Array.inOrder comparefn) x l → JS.Array.insert comparefn x l = x :: l.
Proof. destruct 1 as [|y l Hxy]; simpl; [done|]. by rewrite decide_True. Qed.

(** Sorting a list that is in order already gives the list back. *)
Lemma sort_in_order l :
  Sorted (JS.Array.inOrder comparefn) l → JS.Array.sort comparefn l = l.
Proof.
  induction 1 as [|x l Hs IH Hhd]; simpl; [done|].
  rewrite IH. by apply insert_front.
Qed.

(** Elements that the comparator never asks to swap keep their order. *)
Lemma insert_filter (P : A → Prop) `{!∀ x, Decision (P x)} x l :
  (∀ a b, P a → P b → comparefn a b ≤ 0) →
  filter P (JS.Array.insert comparefn x l) = filter P (x :: l).
Proof.
  intros HP. induction l as [|y l IH]; [done|].
  cbn [JS.Array.insert]. case_decide as Hxy; [done|].
  rewrite (filter_cons _ y), IH, !(filter_cons _ x), (filter_cons _ y).
  destruct (decide (P x)) as [Hx|Hx], (decide (P y)) as [Hy|Hy]; try done.
  destruct Hxy. by apply HP.
Qed.

Lemma sort_filter (P : A → Prop) `{!∀ x, Decision (P x)} l :
  (∀ a b, P a → P b → comparefn a b ≤ 0) →
  filter P (JS.Array.sort comparefn l) = filter P l.
Proof.
  intros HP. induction l as [|x l IH]; [done|].
  cbn [JS.Array.sort foldr]. fold (JS.Array.sort comparefn l).
  rewrite insert_filter by done. by rewrite !filter_cons, IH.
Qed.

End sort_more.

(* ===================================================================== *)
(** * More about the article page *)
(* ===================================================================== *)

Lemma concat_Permutation_proper {A} (ls ks : list (list A)) :
  ls ≡ₚ ks → List.concat ls ≡ₚ List.concat ks.
Proof.
  induction 1 as [|l ls ks _ IH|l k ls|ls ks ms _ IH1 _ IH2]; simpl.
  - done.
  - by rewrite IH.
  - rewrite !(assoc_L (++)). by rewrite (comm (++) k l).
  - by rewrite IH1.
Qed.

Lemma NoDup_fmap_eq {A B} (f : A → B) (l : list A) a b :
  NoDup (f <$> l) → a ∈ l → b ∈ l → f a = f b → a = b.
Proof.
  induction l as [|x l IH]; simpl; [by intros _ ?%elem_of_nil|].
  intros [Hx Hnd]%NoDup_cons [->|Ha]%elem_of_cons [->|Hb]%elem_of_cons Hf.
  - done.
  - destruct Hx. rewrite Hf. by apply list_elem_of_fmap_2.
  - destruct Hx. rewrite <-Hf. by apply list_elem_of_fmap_2.
  - by apply IH.
Qed.

Lemma YearFromTime_mono t t' :
  t ≤ t' → JS.Date.YearFromTime t ≤ JS.Date.YearFromTime t'.
Proof.
  intros Ht. apply YearFromTime_largest.
  destruct (YearFromTime_spec t) as [Hle _]. lia.
Qed.

Lemma List_filter_all {A} (f : A → bool) (l : list A) :
  Forall (λ x, f x = true) l →
  List.filter f l = l ∧ List.filter (λ x, negb (f x)) l = [].
Proof.
  induction 1 as [|x l Hx _ [IH1 IH2]]; simpl; [done|].
  rewrite Hx. simpl. by rewrite IH1, IH2.
Qed.

Lemma filter_Forall {A} (P : A → Prop) `{!∀ x, Decision (P x)} (l : list A) :
  Forall P l → filter P l = l.
Proof.
  induction 1 as [|x l Hx _ IH]; [done|].
  by rewrite filter_cons, decide_True, IH.
Qed.

Lemma filter_Forall_not {A} (P : A → Prop) `{!∀ x, Decision (P x)} (l : list A) :
  Forall (λ x, ¬ P x) l → filter P l = [].
Proof.
  induction 1 as [|x l Hx _ IH]; [done|].
  by rewrite filter_cons, decide_False.
Qed.

Lemma StronglySorted_NoDup {A} (R : relation A) (l : list A) :
  StronglySorted R l → NoDup l → StronglySorted (λ a b, R a b ∧ a ≠ b) l.
Proof.
  induction 1 as [|x l Hs IH Hall]; intros Hnd; [constructor|].
  apply NoDup_cons in Hnd as [Hx Hnd].
  constructor; [by apply IH|].
  apply Forall_forall. intros y Hy. split.
  - by eapply Forall_forall in Hall.
  - by intros ->.
Qed.

Section article_more.
Context `{!JS.Date.TimeZone}.
Import JS Article.

(** A list in non-increasing order of year starts with the posts of its
    greatest year. *)
Lemma ofYear_top y (posts : list Post) :
  StronglySorted
    (λ a b, Date.getFullYear (date b) ≤ Date.getFullYear (date a)) posts →
  Forall (λ post, Date.getFullYear (date post) ≤ y) posts →
  posts = ofYear y posts ++ filter (λ post, Date.getFullYear (date post) ≠ y) posts.
Proof.
  unfold ofYear.
  induction 1 as [|x l Hs IH Hall]; intros Hle; [done|].
  apply Forall_cons in Hle as [Hx Hle]. rewrite !filter_cons.
  destruct (decide (Date.getFullYear (date x) = y)) as [Hxy|Hxy].
  - rewrite decide_False by (by intros ?). simpl. f_equal. by apply IH.
  - rewrite decide_True by done.
    rewrite filter_Forall_not, filter_Forall; [done| |].
    + eapply Forall_impl; [exact Hall|]. simpl. intros; lia.
    + eapply Forall_impl; [exact Hall|]. simpl. intros; lia.
Qed.

(** Going through the years in decreasing order and taking the posts of
    each year gives back a list that is in non-increasing order of year. *)
Lemma flatten_by_year (years : list Z) :
  ∀ posts : list Post,
    StronglySorted
      (λ a b, Date.getFullYear (date b) ≤ Date.getFullYear (date a)) posts →
    StronglySorted (λ earlier later, later < earlier) years →
    (∀ post, post ∈ posts → Date.getFullYear (date post) ∈ years) →
    List.concat ((λ y, ofYear y posts) <$> years) = posts.
Proof.
  induction years as [|y years IH]; intros posts Hposts Hyears Hin.
  - destruct posts as [|post posts]; [done|].
    pose proof (Hin post (list_elem_of_here _ _)) as Hnil.
    by apply elem_of_nil in Hnil.
  - apply StronglySorted_inv in Hyears as [Hyears Hy].
    assert (Hle : Forall (λ post, Date.getFullYear (date post) ≤ y) posts).
    { apply Forall_forall. intros post [->|Hpost]%Hin%elem_of_cons; [done|].
      eapply Forall_forall in Hy; [|done]. lia. }
    csimpl. etrans; [|symmetry; apply (ofYear_top y posts Hposts Hle)]. f_equal.
    rewrite <-(IH (filter (λ post, Date.getFullYear (date post) ≠ y) posts)).
    + f_equal. apply list_fmap_ext. intros i y' Hy'%list_elem_of_lookup_2.
      unfold ofYear. rewrite list_filter_filter. apply list_filter_iff.
      intros post. eapply Forall_forall in Hy; [|done]. split; [|tauto].
      intros ->. split; [done|lia].
    + by apply StronglySorted_filter.
    + done.
    + intros post [Hne Hpost]%list_elem_of_filter.
      apply Hin, elem_of_cons in Hpost as [?|?]; done.
Qed.

(** The sorted entries of the grouping, bucket by bucket. *)
Lemma Posts_listed (o : Object.t (list Post)) :
  listed (Posts o) = List.concat (Array.sort byYearDesc (Object.entries o)).*2.
Proof.
  unfold listed, Posts. f_equal.
  induction (Array.sort byYearDesc (Object.entries o)) as [|[y posts] l IH] using rev_ind;
    [done|].
  rewrite imap_app, !fmap_app, IH. simpl. do 2 f_equal.
  rewrite <-list_fmap_compose. by rewrite list_fmap_id.
Qed.

Lemma Posts_entries_Permutation (o : Object.t (list Post)) :
  Array.sort byYearDesc (Object.entries o) ≡ₚ o.
Proof. by rewrite sort_Permutation, entries_Permutation. Qed.

Lemma Posts_elem_of (o : Object.t (list Post)) section :
  section ∈ Posts o →
  (year section, (items section).*2) ∈ o
  ∧ key section = year section
  ∧ (items section).*1
    = (λ post, Collections.path (Collections.posts._meta' post))
        <$> (items section).*2.
Proof.
  unfold Posts. intros (i & [y posts] & -> & Hi)%elem_of_lookup_imap. simpl.
  rewrite <-!list_fmap_compose, list_fmap_id. split_and!; [|done|done].
  rewrite <-Posts_entries_Permutation. by eapply list_elem_of_lookup_2.
Qed.

Lemma listed_keys (sections : list YearSection) :
  Forall (λ section,
            (items section).*1
            = (λ post, Collections.path (Collections.posts._meta' post))
                <$> (items section).*2) sections →
  List.concat ((λ section, (items section).*1) <$> sections)
  = (λ post, Collections.path (Collections.posts._meta' post)) <$> listed sections.
Proof.
  unfold listed. induction 1 as [|section sections Hs _ IH]; [done|].
  csimpl. by rewrite fmap_app, IH, Hs.
Qed.

Lemma Posts_of_groups seen (byYear : Object.t (list Post)) :
  groups seen byYear →
  listed (Posts byYear) ≡ₚ seen
  ∧ Forall (λ section,
              Object.get byYear (year section) = Some (items section).*2
              ∧ (items section).*1
                = (λ post, Collections.path (Collections.posts._meta' post))
                    <$> (items section).*2)
      (Posts byYear).
Proof.
  intros (Hnd & Hget & Hcat). split.
  - rewrite Posts_listed.
    rewrite (concat_Permutation_proper _ byYear.*2)
      by (by rewrite Posts_entries_Permutation).
    done.
  - apply Forall_forall. intros section (Hin & _ & Hkeys)%Posts_elem_of.
    split; [|done]. by apply get_Some.
Qed.

(** X1.  The page lists every article exactly once: the posts of all the
    year sections, taken together, are the articles, each as often as the
    input has it.  The posts of a section are the bucket that
    [postsByYear] holds under the section's year, and every [<li>] is keyed
    by the path of its post. *)
Theorem Posts_lists_every_article (allArticles : list Post) :
  ∃ byYear,
    postsByYear allArticles = Normal byYear
    ∧ listed (Posts byYear) ≡ₚ allArticles
    ∧ Forall (λ section,
                Object.get byYear (year section) = Some (items section).*2
                ∧ (items section).*1
                  = (λ post, Collections.path (Collections.posts._meta' post))
                      <$> (items section).*2)
        (Posts byYear).
Proof.
  destruct (postsByYear_groups allArticles) as (byYear & Hrun & Hgr).
  destruct (Posts_of_groups _ _ Hgr) as [Hperm Hall].
  exists byYear. split_and!; [done| |done].
  by rewrite Hperm, sort_Permutation.
Qed.

(** X2.  The page has no empty year section, and it has no year section
    at all exactly when there is no article. *)
Theorem Posts_sections_nonempty (allArticles : list Post) :
  ∃ byYear,
    postsByYear allArticles = Normal byYear
    ∧ Forall (λ section, items section ≠ []) (Posts byYear)
    ∧ (Posts byYear = [] ↔ allArticles = []).
Proof.
  destruct (postsByYear_groups allArticles) as (byYear & Hrun & Hgr).
  destruct (Posts_of_groups _ _ Hgr) as [Hperm _].
  rewrite sort_Permutation in Hperm.
  exists byYear. split_and!; [done| |].
  - apply Forall_forall. intros section (Hin & _)%Posts_elem_of Hnil.
    apply (groups_entry _ _ _ _ Hgr) in Hin as [_ Hne].
    by rewrite Hnil in Hne.
  - split.
    + intros Hnone. rewrite Hnone in Hperm. by apply Permutation_nil_l in Hperm.
    + intros ->. by injection Hrun as <-.
Qed.

(** X3.  The year sections carry distinct React keys, and their delays
    are staggered: the section at index [i] has the delay factor [i + 1]. *)
Theorem Posts_keys_and_delays (allArticles : list Post) :
  ∃ byYear,
    postsByYear allArticles = Normal byYear
    ∧ NoDup (key <$> Posts byYear)
    ∧ ∀ i section, Posts byYear !! i = Some section → delay section = S i.
Proof.
  destruct (postsByYear_groups allArticles) as (byYear & Hrun & Hnd & _).
  exists byYear. split_and!; [done| |].
  - assert (key <$> Posts byYear = renderedYears (Posts byYear)) as ->.
    { unfold renderedYears. apply list_fmap_ext.
      by intros i section (_ & -> & _)%list_elem_of_lookup_2%Posts_elem_of. }
    by rewrite renderedYears_Posts, Posts_entries_Permutation.
  - unfold Posts. intros i section Hi.
    apply list_lookup_imap_Some in Hi as ([y posts] & _ & ->). simpl. lia.
Qed.

(** X4.  When the articles have pairwise distinct paths, no two [<li>]
    of the page carry the same key. *)
Theorem Posts_item_keys_distinct (allArticles : list Post) :
  NoDup ((λ post, Collections.path (Collections.posts._meta' post)) <$> allArticles) →
  ∃ byYear,
    postsByYear allArticles = Normal byYear
    ∧ NoDup (List.concat ((λ section, (items section).*1) <$> Posts byYear)).
Proof.
  intros Hpaths.
  destruct (postsByYear_groups allArticles) as (byYear & Hrun & Hgr).
  destruct (Posts_of_groups _ _ Hgr) as [Hperm Hall].
  exists byYear. split; [done|].
  rewrite listed_keys, Hperm, sort_Permutation; [done|].
  eapply Forall_impl; [done|]. by intros section [_ ?].
Qed.

(** X5.  The sort is stable, and so are the buckets: the articles of a
    year that carry the same time value stand in their bucket in the order
    in which the input has them. *)
Theorem postsByYear_ties_keep_order (allArticles : list Post) :
  ∃ byYear,
    postsByYear allArticles = Normal byYear
    ∧ ∀ y bucket t,
        (y, bucket) ∈ byYear →
        filter (λ post, Date.getTime (date post) = t) bucket
        = filter (λ post, Date.getTime (date post) = t) (ofYear y allArticles).
Proof.
  destruct (postsByYear_groups allArticles) as (byYear & Hrun & Hgr).
  exists byYear. split; [done|]. intros y bucket t Hin.
  apply (groups_entry _ _ _ _ Hgr) in Hin as [-> _].
  unfold ofYear. rewrite !list_filter_filter.
  apply sort_filter. unfold newestFirst. intros a b [Ha _] [Hb _]. lia.
Qed.

(** X6.  When no two articles carry the same time value, the grouping
    does not depend on the order in which the articles arrive. *)
Theorem postsByYear_order_independent (allArticles allArticles' : list Post) :
  NoDup ((λ post, Date.getTime (date post)) <$> allArticles) →
  allArticles ≡ₚ allArticles' →
  postsByYear allArticles = postsByYear allArticles'.
Proof.
  intros Htimes Hperm. unfold postsByYear. f_equal.
  apply (StronglySorted_unique_strong (Array.inOrder newestFirst)).
  - intros a b Ha Hb Hab Hba.
    rewrite sort_Permutation in Ha. rewrite sort_Permutation, <-Hperm in Hb.
    apply (NoDup_fmap_eq _ _ _ _ Htimes Ha Hb).
    unfold Array.inOrder, newestFirst in *. lia.
  - apply sort_StronglySorted; unfold newestFirst; intros; lia.
  - apply sort_StronglySorted; unfold newestFirst; intros; lia.
  - by rewrite !sort_Permutation.
Qed.

(** X7.  [Object.entries] lists array-index keys in ascending order, so
    when every article's year is such a key (0 to 2^32 - 2), the entries of
    [postsByYear] come oldest year first, and what the sort in [Posts] does
    is to reverse them. *)
Theorem Posts_reverses_entries (allArticles : list Post) :
  Forall (λ post, 0 ≤ Date.getFullYear (date post) < 2 ^ 32 - 1) allArticles →
  ∃ byYear,
    postsByYear allArticles = Normal byYear
    ∧ StronglySorted (λ earlier later, earlier < later) (Object.entries byYear).*1
    ∧ Array.sort byYearDesc (Object.entries byYear) = reverse (Object.entries byYear)
    ∧ renderedYears (Posts byYear) = reverse (Object.entries byYear).*1.
Proof.
  intros Hyears.
  destruct (postsByYear_groups allArticles) as (byYear & Hrun & Hgr).
  pose proof Hgr as (Hnd & _ & _).
  assert (Hidx : Forall (λ e, Object.isArrayIndex e.1 = true) byYear).
  { apply Forall_forall. intros [y bucket] Hin. simpl.
    apply (groups_entry _ _ _ _ Hgr) in Hin as [-> Hne].
    destruct (ofYear y _) as [|post posts] eqn:Hb; [done|].
    assert (Hpost : post ∈ ofYear y (Array.sort newestFirst allArticles))
      by (rewrite Hb; apply list_elem_of_here).
    apply list_elem_of_filter in Hpost as [<- Hpost].
    rewrite sort_Permutation in Hpost.
    eapply Forall_forall in Hyears; [|done].
    unfold Object.isArrayIndex. by apply bool_decide_eq_true. }
  assert (Hentries : Object.entries byYear = Array.sort (λ a b, a.1 - b.1) byYear).
  { unfold Object.entries.
    destruct (List_filter_all _ _ Hidx) as [-> ->]. by rewrite app_nil_r. }
  assert (Hasc : StronglySorted (Array.inOrder (λ a b : Z * list Post, a.1 - b.1))
                   (Object.entries byYear)).
  { rewrite Hentries. apply sort_StronglySorted; intros; lia. }
  assert (Hndk : NoDup (Object.entries byYear).*1)
    by (by rewrite entries_Permutation).
  assert (Hrev : Array.sort byYearDesc (Object.entries byYear)
                 = reverse (Object.entries byYear)).
  { apply (StronglySorted_unique_strong (Array.inOrder byYearDesc)).
    - intros a b Ha Hb Hab Hba.
      rewrite sort_Permutation in Ha. rewrite reverse_Permutation in Hb.
      apply (NoDup_fmap_eq fst _ _ _ Hndk Ha Hb).
      unfold Array.inOrder, byYearDesc in *. lia.
    - apply sort_StronglySorted; unfold byYearDesc; intros; lia.
    - apply Sorted_StronglySorted.
      + unfold Array.inOrder, byYearDesc. intros a b c. lia.
      + apply StronglySorted_Sorted, Sorted_reverse in Hasc.
        eapply Sorted_fmap with (f := id) in Hasc; [by rewrite list_fmap_id in Hasc|].
        unfold Array.inOrder, byYearDesc, flip. simpl. intros a b. lia.
    - by rewrite sort_Permutation, reverse_Permutation. }
  exists byYear. split_and!; [done| |done|].
  - apply (StronglySorted_mono (λ a b : Z, a ≤ b ∧ a ≠ b)); [intros; lia|].
    apply StronglySorted_NoDup; [|done].
    eapply StronglySorted_fmap; [|exact Hasc].
    unfold Array.inOrder. intros a b. lia.
  - by rewrite renderedYears_Posts, Hrev, fmap_reverse.
Qed.

(** X8.  In a time zone in which local time never runs backwards, reading
    the page from top to bottom gives the articles newest first: the posts
    of the sections, one section after the other, are the sorted list. *)
Theorem Posts_lists_newest_first (allArticles : list Post) :
  (∀ t t', t ≤ t' → Date.LocalTime t ≤ Date.LocalTime t') →
  ∃ byYear,
    postsByYear allArticles = Normal byYear
    ∧ listed (Posts byYear) = Array.sort newestFirst allArticles.
Proof.
  intros Hzone.
  destruct (postsByYear_groups allArticles) as (byYear & Hrun & Hgr).
  pose proof Hgr as (Hnd & Hget & _).
  exists byYear. split; [done|].
  set (sorted := Array.sort newestFirst allArticles) in *.
  rewrite Posts_listed.
  assert ((Array.sort byYearDesc (Object.entries byYear)).*2
          = (λ y, ofYear y sorted)
              <$> (Array.sort byYearDesc (Object.entries byYear)).*1) as ->.
  { rewrite <-list_fmap_compose. apply list_fmap_ext.
    intros i [y bucket] Hin%list_elem_of_lookup_2. simpl.
    rewrite Posts_entries_Permutation in Hin.
    by apply (groups_entry _ _ _ _ Hgr) in Hin as [-> _]. }
  apply flatten_by_year.
  - apply (StronglySorted_mono notOlder); [|apply newestFirst_sorted].
    unfold notOlder, Date.getFullYear. intros a b Hab.
    by apply YearFromTime_mono, Hzone.
  - rewrite <-renderedYears_Posts. by apply Posts_years_StronglySorted.
  - intros post Hpost. rewrite Posts_entries_Permutation.
    apply dec_stable. intros Hnone%get_None. rewrite Hget in Hnone.
    assert (Hin : post ∈ ofYear (Date.getFullYear (date post)) sorted)
      by (by apply list_elem_of_filter).
    destruct (ofYear _ sorted); [by apply elem_of_nil in Hin|done].
Qed.

(** X9.  [sort] works in place, so whoever reads [allArticles] later finds
    it sorted; grouping the sorted array gives the same grouping again. *)
Theorem postsByYear_of_sorted (allArticles : list Post) :
  Array.sort newestFirst (Array.sort newestFirst allArticles)
  = Array.sort newestFirst allArticles
  ∧ postsByYear (Array.sort newestFirst allArticles) = postsByYear allArticles.
Proof.
  assert (Array.sort newestFirst (Array.sort newestFirst allArticles)
          = Array.sort newestFirst allArticles) as Hidem.
  { apply sort_in_order, sort_Sorted. unfold newestFirst. intros; lia. }
  split; [done|]. unfold postsByYear. by rewrite Hidem.
Qed.

End article_more.

(** The sample articles have distinct paths and distinct time values, their
    years are array indices, and UTC never runs backwards. *)
Lemma Posts_lists_every_article_sample :
  ∃ byYear,
    Article.postsByYear (H := JS.Date.UTC) Sample.allArticles = JS.Normal byYear
    ∧ Article.listed (Article.Posts byYear) ≡ₚ Sample.allArticles.
Proof.
  destruct (@Posts_lists_every_article JS.Date.UTC Sample.allArticles)
    as (byYear & Hrun & Hperm & _).
  exists byYear. split; [exact Hrun|exact Hperm].
Defined.

Lemma Posts_sections_nonempty_sample :
  ∃ byYear,
    Article.postsByYear (H := JS.Date.UTC) [] = JS.Normal byYear
    ∧ Article.Posts byYear = [].
Proof.
  destruct (@Posts_sections_nonempty JS.Date.UTC []) as (byYear & Hrun & _ & Hnone).
  exists byYear. split; [exact Hrun|]. apply Hnone. reflexivity.
Defined.

Lemma Posts_keys_and_delays_sample :
  ∃ byYear,
    Article.postsByYear (H := JS.Date.UTC) Sample.allArticles = JS.Normal byYear
    ∧ ∃ section,
        Article.Posts byYear !! 1%nat = Some section
        ∧ Article.delay section = 2%nat.
Proof.
  destruct (@Posts_keys_and_delays JS.Date.UTC Sample.allArticles)
    as (byYear & Hrun & _ & Hdelay).
  exists byYear. split; [exact Hrun|].
  pose proof Hrun as Heq. vm_compute in Heq. injection Heq as <-.
  eexists. split; [reflexivity|]. apply (Hdelay 1%nat). reflexivity.
Defined.

Lemma postsByYear_ties_keep_order_sample :
  ∃ byYear,
    Article.postsByYear (H := JS.Date.UTC) [Sample.rag; Sample.rag; Sample.older]
    = JS.Normal byYear
    ∧ ∃ bucket,
        JS.Object.get byYear 2025 = Some bucket
        ∧ filter (λ post, JS.Date.getTime (Article.date post) = 1751673600000) bucket
          = [Sample.rag; Sample.rag].
Proof.
  destruct (@postsByYear_ties_keep_order JS.Date.UTC
              [Sample.rag; Sample.rag; Sample.older]) as (byYear & Hrun & Hties).
  exists byYear. split; [exact Hrun|].
  pose proof Hrun as Heq. vm_compute in Heq. injection Heq as <-.
  eexists. split; [reflexivity|].
  apply (Hties 2025). apply list_elem_of_here.
Defined.

Lemma Posts_item_keys_distinct_sample :
  ∃ byYear,
    Article.postsByYear (H := JS.Date.UTC) Sample.allArticles = JS.Normal byYear
    ∧ NoDup (List.concat
               ((λ section, (Article.items section).*1) <$> Article.Posts byYear)).
Proof.
  apply (@Posts_item_keys_distinct JS.Date.UTC Sample.allArticles).
  apply (bool_decide_unpack _). vm_compute. exact I.
Defined.

Lemma postsByYear_order_independent_sample :
  Article.postsByYear (H := JS.Date.UTC) Sample.allArticles
  = Article.postsByYear (H := JS.Date.UTC) (reverse Sample.allArticles).
Proof.
  apply (@postsByYear_order_independent JS.Date.UTC).
  - apply (bool_decide_unpack _). vm_compute. exact I.
  - symmetry. apply reverse_Permutation.
Defined.

Lemma Posts_reverses_entries_sample :
  ∃ byYear,
    Article.postsByYear (H := JS.Date.UTC) Sample.allArticles = JS.Normal byYear
    ∧ Article.renderedYears (Article.Posts byYear)
      = reverse (JS.Object.entries byYear).*1.
Proof.
  destruct (@Posts_reverses_entries JS.Date.UTC Sample.allArticles)
    as (byYear & Hrun & _ & _ & Hrev).
  - apply (bool_decide_unpack _). vm_compute. exact I.
  - exists byYear. split; [exact Hrun|exact Hrev].
Defined.

Lemma Posts_lists_newest_first_sample :
  ∃ byYear,
    Article.postsByYear (H := JS.Date.UTC) Sample.allArticles = JS.Normal byYear
    ∧ Article.listed (Article.Posts byYear)
      = [Sample.opentelemetry; Sample.rag; Sample.prometheus; Sample.older].
Proof.
  apply (@Posts_lists_newest_first JS.Date.UTC Sample.allArticles).
  intros t t' Hle. unfold JS.Date.LocalTime. simpl. lia.
Defined.

(* ===================================================================== *)
(** * More about the transforms *)
(* ===================================================================== *)

Lemma replace_absent c r s :
  JS.Str.contains c s = false → JS.Str.replace c r s = s.
Proof.
  induction s as [|a s IH]; simpl; [done|].
  intros [Ha Hs]%orb_false_iff. apply bool_decide_eq_false in Ha.
  by rewrite decide_False, IH.
Qed.

(** Writing a path with the other separator does not change what it
    normalizes to. *)
Lemma replace_back c r s :
  JS.Str.replace c r (JS.Str.replace r c s) = JS.Str.replace c r s.
Proof.
  induction s as [|a s IH]; simpl; [done|]. rewrite IH. f_equal.
  repeat case_decide; congruence.
Qed.

Section collections_more.
Context `{!Collections.Library}.
Import JS Collections.

(** X10.  A path without a backslash passes through a transform
    unchanged, in [_meta.path] and, for a post, in [slug]; and normalizing
    is idempotent, so a path that a transform has returned is a fixed
    point. *)
Theorem transforms_keep_posix_path :
  (∀ (page : pages.input) (context : Context_) r,
     Str.contains Str.backslash (path (pages._meta page)) = false →
     pages.transform page context = Resolved r →
     path (pages._meta' r) = path (pages._meta page))
  ∧ (∀ (page : posts.input) (context : Context_) r,
       Str.contains Str.backslash (path (posts._meta page)) = false →
       posts.transform page context = Resolved r →
       path (posts._meta' r) = path (posts._meta page)
       ∧ posts.slug r = path (posts._meta page))
  ∧ (∀ p, normalize (normalize p) = normalize p).
Proof.
  split_and!.
  - intros page context r Hposix [_ ->]%pages_transform_Resolved. simpl.
    by apply replace_absent.
  - intros page context r Hposix (_ & -> & _ & ->)%posts_transform_Resolved. simpl.
    split; by apply replace_absent.
  - intros p. unfold normalize. apply replace_absent. by apply replace_contains.
Qed.

(** X11.  The slug does not depend on the platform's separator: a post
    whose path is written with backslashes where another's has slashes gets
    the same [slug] and the same [_meta.path]. *)
Theorem posts_slug_separator_independent
    (page page' : posts.input) (context context' : Context_) r r' :
  path (posts._meta page') = Str.replace Str.slash Str.backslash (path (posts._meta page)) →
  posts.transform page context = Resolved r →
  posts.transform page' context' = Resolved r' →
  posts.slug r' = posts.slug r
  ∧ path (posts._meta' r') = path (posts._meta' r).
Proof.
  intros Hpath (_ & -> & _ & ->)%posts_transform_Resolved
    (_ & -> & _ & ->)%posts_transform_Resolved. simpl.
  unfold normalize. rewrite Hpath. split; apply replace_back.
Qed.


End collections_more.

Lemma transforms_keep_posix_path_sample :
  ∃ r,
    Collections.posts.transform (H := Sample.library)
      Sample.hello_posix tt
    = JS.Resolved r
    ∧ Collections.posts.slug r = "blog/hello".
Proof.
  eexists. split; [reflexivity|].
  exact (proj2 (proj1 (proj2 (@transforms_keep_posix_path Sample.library))
                  Sample.hello_posix tt _ eq_refl eq_refl)).
Defined.

Lemma posts_slug_separator_independent_sample :
  ∃ r r',
    Collections.posts.transform (H := Sample.library)
      Sample.hello_posix tt
    = JS.Resolved r
    ∧ Collections.posts.transform (H := Sample.library) Sample.hello tt
      = JS.Resolved r'
    ∧ Collections.posts.slug r' = Collections.posts.slug r.
Proof.
  do 2 eexists. split; [reflexivity|]. split; [reflexivity|].
  exact (proj1 (@posts_slug_separator_independent Sample.library
                  Sample.hello_posix Sample.hello tt tt _ _ eq_refl eq_refl eq_refl)).
Defined.


(* ===================================================================== *)
(** * More about the JSON-LD injector *)
(* ===================================================================== *)

Lemma all_append P s t :
  JS.Str.all P (s +:+ t) = JS.Str.all P s && JS.Str.all P t.
Proof.
  induction s as [|a s IH]; simpl; [done|]. by rewrite IH, andb_assoc.
Qed.

Lemma all_concat P sep ls :
  JS.Str.all P sep = true →
  Forall (λ s, JS.Str.all P s = true) ls →
  JS.Str.all P (String.concat sep ls) = true.
Proof.
  intros Hsep. induction 1 as [|s ls Hs Hls IH]; simpl; [done|].
  destruct ls as [|s' ls]; [done|].
  by rewrite !all_append, Hs, Hsep, IH.
Qed.

Lemma escape_no_control a :
  JS.Str.all (λ c, negb (Schema.isControl c)) (Schema.escape a) = true.
Proof. by destruct a as [[] [] [] [] [] [] [] []]; vm_compute. Qed.

Lemma quote_no_control s :
  JS.Str.all (λ c, negb (Schema.isControl c)) (Schema.quote s) = true.
Proof.
  unfold Schema.quote. cbn [JS.Str.all]. rewrite all_append.
  assert (JS.Str.all (λ c, negb (Schema.isControl c)) (Schema.escapeAll s) = true) as ->.
  { induction s as [|a s IH]; simpl; [done|].
    by rewrite all_append, escape_no_control, IH. }
  done.
Qed.

Lemma stringify_no_control :
  ∀ v, JS.Str.all (λ c, negb (Schema.isControl c)) (Schema.stringify v) = true.
Proof.
  fix IH 1. intros [s|elements|properties]; cbn [Schema.stringify].
  - apply quote_no_control.
  - rewrite !all_append, all_concat; [done|done|].
    induction elements as [|e elements IHelements]; constructor; [apply IH|done].
  - rewrite !all_append, all_concat; [done|done|].
    induction properties as [|[k e] properties IHproperties]; constructor; [|done].
    cbn beta. cbn [fst snd]. by rewrite !all_append, quote_no_control, IH.
Qed.

Section schema_more.
Context `{!Schema.Environment}.
Import JS Schema.

(** X13.  The module has no fallback for a base URL that the URL
    constructor rejects: loading it fails exactly when
    [new URL('/profile.png', baseUrl)] throws, with that error, and then
    there is no component to render; otherwise [person] is built and the
    component renders. *)
Theorem person_fails_with_URL :
  (∀ error,
     URL "/profile.png" baseUrl = Throw error
     ↔ person = Throw error)
  ∧ (∀ error, person = Throw error ↔ rendered = Throw error)
  ∧ (∀ image,
       URL "/profile.png" baseUrl = Normal image →
       ∃ p, person = Normal p
            ∧ property "image" p = Some (JString image)
            ∧ rendered = Normal (JsonLd p)).
Proof.
  unfold rendered, person. destruct (URL _ _) as [image|e]; simpl; split_and!.
  - by intros error; split.
  - by intros error; split.
  - intros ? [= <-]. by eexists.
  - by intros error; split; intros [= ->].
  - by intros error; split; intros [= ->].
  - done.
Qed.

(** X14.  The text of the script element is free of raw control
    characters, whatever the JSON value holds, and so whatever the
    environment and the social links contain: [JSON.stringify] writes every
    code unit below U+0020 as an escape. *)
Theorem JsonLd_text_no_control (p : JSON) :
  ∃ text,
    JsonLd p
    = React.Element "script" [("type", "application/ld+json")] [React.Text text]
    ∧ Str.all (λ c, negb (isControl c)) text = true.
Proof. eexists. split; [reflexivity|]. apply stringify_no_control. Qed.

End schema_more.

(** The sample environment: the constructor accepts the base URL. *)
Lemma person_fails_with_URL_sample :
  ∃ p,
    Schema.person (H := Sample.environment (Some "production")) = JS.Normal p
    ∧ Schema.property "image" p
      = Some (Schema.JString "https://felixarjuna.dev/profile.png")
    ∧ Schema.rendered (H := Sample.environment (Some "production"))
      = JS.Normal (Schema.JsonLd p).
Proof.
  exact (proj2 (proj2 (@person_fails_with_URL (Sample.environment (Some "production"))))
           _ eq_refl).
Defined.

(* ===================================================================== *)
(** * More about the clock widget *)
(* ===================================================================== *)

Section clock_more.
Import JS Clock.

(** The interval of a mounted component has an id that the host has given
    out already. *)
Lemma run_interval_lt events i :
  mounted (run events) = Some i → (interval i < nextId (timers (run events)))%nat.
Proof.
  revert i. induction events as [|e events IH] using rev_ind; [done|].
  rewrite run_snoc. intros i.
  destruct (run events) as [[act next] [j|]], e as [now|id now|]; simpl in *;
    try done.
  - intros [= <-]. by apply (IH j).
  - destruct (act !! id) as [[[] ms]|]; simpl.
    + intros [= <-]. by apply (IH j).
    + intros [= <-]. by apply (IH j).
  - intros [= <-]. simpl. lia.
  - by destruct (act !! id).
Qed.

(** X15.  Only the component's own interval reaches it: firing any other
    id, a stale one from an earlier mount included, changes neither what is
    displayed nor the host's intervals. *)
Theorem fire_other_id_ignored (events : list Event) (id : nat) (now : Date.t) :
  (∀ i, mounted (run events) = Some i → id ≠ interval i) →
  run (events ++ [fire id now]) = run events.
Proof.
  intros Hother. rewrite run_snoc. simpl.
  pose proof (run_consistent events) as Hc. unfold consistent in Hc.
  destruct (mounted (run events)) as [i|].
  - rewrite Hc, lookup_singleton_ne; [done|]. intros Heq. by apply (Hother i).
  - by rewrite Hc, lookup_empty.
Qed.

(** X16.  However often the interval fires, the component shows the time
    read at the last firing (the time it had, if there was no firing), it
    keeps its interval, and the host's intervals stay as they are. *)
Theorem fires_show_the_last (events : list Event) (i : Instance) (ticks : list Date.t) :
  mounted (run events) = Some i →
  run (events ++ (fire (interval i) <$> ticks))
  = {| timers := timers (run events);
       mounted := Some {| time := default (time i) (last ticks);
                          interval := interval i |} |}.
Proof.
  intros Hi. induction ticks as [|now ticks IH] using rev_ind.
  - rewrite app_nil_r. simpl. destruct (run events) as [t m]. simpl in *.
    rewrite Hi. by destruct i.
  - rewrite fmap_app, (assoc_L (++)).
    change (fire (interval i) <$> [now]) with [fire (interval i) now].
    rewrite run_snoc, IH. simpl.
    pose proof (run_consistent events) as Hc. unfold consistent in Hc.
    rewrite Hi in Hc. rewrite Hc, lookup_singleton_eq. simpl.
    by rewrite last_snoc.
Qed.

(** X17.  Unmounting and mounting again starts a fresh interval: the
    component gets the host's next id, which differs from the one it had,
    and the old interval is gone. *)
Theorem remount_fresh_interval (events : list Event) (i : Instance) (now : Date.t) :
  mounted (run events) = Some i →
  let w := run (events ++ [unmount; mount now]) in
  mounted w = Some {| time := now; interval := nextId (timers (run events)) |}
  ∧ interval i ≠ nextId (timers (run events))
  ∧ active (timers w) !! interval i = None
  ∧ is_Some (active (timers w) !! nextId (timers (run events))).
Proof.
  intros Hi w.
  pose proof (run_interval_lt events i Hi) as Hlt.
  pose proof (run_consistent events) as Hc. unfold consistent in Hc.
  rewrite Hi in Hc.
  assert (Hw : w = {| timers :=
                        {| active := {[ nextId (timers (run events))
                                        := {| handler := refresh; timeout := 1000 |} ]};
                           nextId := S (nextId (timers (run events))) |};
                      mounted := Some {| time := now;
                                         interval := nextId (timers (run events)) |} |}).
  { subst w. replace (events ++ [unmount; mount now])
      with ((events ++ [unmount]) ++ [mount now]) by (by rewrite <-(assoc_L (++))).
    rewrite !run_snoc. simpl. rewrite Hi. simpl.
    by rewrite Hc, delete_singleton_eq, insert_empty. }
  rewrite Hw. simpl. split_and!.
  - done.
  - lia.
  - apply lookup_singleton_ne. lia.
  - rewrite lookup_singleton_eq. by eexists.
Qed.

End clock_more.

(** The clock after two mounts and some firings. *)
Lemma fire_other_id_ignored_sample :
  Clock.run ([Clock.mount (JS.Date.mk 0); Clock.unmount; Clock.mount (JS.Date.mk 5)]
             ++ [Clock.fire 0 (JS.Date.mk 1000)])
  = Clock.run [Clock.mount (JS.Date.mk 0); Clock.unmount; Clock.mount (JS.Date.mk 5)].
Proof.
  apply fire_other_id_ignored. intros i [= <-]. simpl. discriminate.
Defined.

Lemma fires_show_the_last_sample :
  Clock.mounted
    (Clock.run ([Clock.mount (JS.Date.mk 0)]
                ++ (Clock.fire 0 <$> [JS.Date.mk 1000; JS.Date.mk 2000; JS.Date.mk 3000])))
  = Some {| Clock.time := JS.Date.mk 3000; Clock.interval := 0 |}.
Proof.
  exact (f_equal Clock.mounted
           (fires_show_the_last [Clock.mount (JS.Date.mk 0)]
              {| Clock.time := JS.Date.mk 0; Clock.interval := 0 |}
              [JS.Date.mk 1000; JS.Date.mk 2000; JS.Date.mk 3000] eq_refl)).
Defined.

Lemma remount_fresh_interval_sample :
  Clock.mounted
    (Clock.run ([Clock.mount (JS.Date.mk 0)] ++ [Clock.unmount; Clock.mount (JS.Date.mk 5)]))
  = Some {| Clock.time := JS.Date.mk 5; Clock.interval := 1 |}.
Proof.
  exact (proj1 (remount_fresh_interval [Clock.mount (JS.Date.mk 0)]
                  {| Clock.time := JS.Date.mk 0; Clock.interval := 0 |}
                  (JS.Date.mk 5) eq_refl)).
Defined.
